(** * fish_key_reader: key-event decoding, annotation and the session loop

    A shallow embedding of [src/fish_key_reader.cpp].  Wide characters
    ([wchar_t]) and bytes are integers ([Z]); the two static shift registers
    are lists updated by index; the text written to [stdout] and [stderr] is
    accumulated in two strings; the file-level variable [keep_running] and the
    function-level statics live in one record that every function threads
    through a small state monad. *)

From Stdlib Require Import ZArith String Ascii Bool Lia DecimalString.
From Stdlib Require Import PrimFloat FloatOps SpecFloat.
From Stdlib Require FloatAxioms.
From stdpp Require Import list.

Local Open Scope Z_scope.

(** ** Text produced by the [printf] family *)

Module Fmt.

Definition chr (n : Z) : string := String (ascii_of_nat (Z.to_nat n)) EmptyString.

(** The newline and the double quote of the C literals. *)
Definition nl : string := chr 10.
Definition dquote : string := chr 34.

Definition cat (a b : string) : string := String.append a b.

Fixpoint replicate_char (n : nat) (c : Z) : string :=
  match n with
  | O => EmptyString
  | S k => cat (chr c) (replicate_char k c)
  end.

(** Minimum field width: pad on the left with [c] up to [width]. *)
Definition pad_left (width : nat) (c : Z) (s : string) : string :=
  cat (replicate_char (width - String.length s) c) s.

Definition hex_digit (d : Z) : string :=
  if d <? 10 then chr (48 + d) else chr (55 + d).

Fixpoint hex_upper (fuel : nat) (n : Z) (acc : string) : string :=
  match fuel with
  | O => acc
  | S f =>
      let acc' := cat (hex_digit (n mod 16)) acc in
      if n / 16 =? 0 then acc' else hex_upper f (n / 16) acc'
  end.

(** [%X]: the argument is read as a 32-bit [unsigned int], which has at most
    eight hexadecimal digits. *)
Definition X (n : Z) : string := hex_upper 8 (n mod 2 ^ 32) EmptyString.

(** [%04X], [%06X]: zero flag with a minimum width; [%4X]: blank padded. *)
Definition X0 (width : nat) (n : Z) : string := pad_left width 48 (X n).
Definition Xw (width : nat) (n : Z) : string := pad_left width 32 (X n).

(** [%d], [%lld]: signed decimal. *)
Definition d (n : Z) : string := NilZero.string_of_int (Z.to_int n).

(** [%3lld]: blank padded to the width. *)
Definition dw (width : nat) (n : Z) : string := pad_left width 32 (d n).

(** [%03lld]: zero padded to the width; the zeros go between the sign and
    the digits. *)
Definition d0 (width : nat) (n : Z) : string :=
  if n <? 0
  then cat "-" (pad_left (width - 1) 48 (d (- n)))
  else pad_left width 48 (d n).

(** [%c] in a wide-character format: the [int] argument is cut to an
    [unsigned char] and converted by [btowc].  A byte below 0x80 is the
    character itself; a byte from 0x80 is no character by itself in the C
    and UTF-8 locales, the conversion fails ([None]) and the call writes
    nothing more. *)
Definition c (n : Z) : option string :=
  let b := n mod 256 in
  if b <? 128 then Some (chr b) else None.

(** The text one call of the [printf] family writes: the pieces of its
    format in order, up to the first conversion that fails. *)
Fixpoint printf (pieces : list (option string)) : string :=
  match pieces with
  | [] => EmptyString
  | Some s :: rest => cat s (printf rest)
  | None :: _ => EmptyString
  end.

End Fmt.

Notation "a +:+ b" := (Fmt.cat a b) (at level 60, right associativity).

(** ** Symbol Formatter *)

(** [ctrl_symbolic_names]: 32 entries, [None] for the [NULL] ones. *)
Definition ctrl_symbolic_names : list (option string) :=
  [ None; None; None; None; None; None; None; Some "\a"%string; Some "\b"%string;
    Some "\t"%string; Some "\n"%string;
    Some "\v"%string; Some "\f"%string; Some "\r"%string; None; None; None; None;
    None; None; None; None;
    None; None; None; None; None; Some "\e"%string; None; None; None; None ].

(** [ctrl_symbolic_names[wc]], read for [wc < 0x20] only.  The source does
    not check the index: for a negative [wc] it reads outside the array,
    which C leaves undefined.  [Z.to_nat] sends such an index to 0 here;
    that value stands for nothing in the program, so every statement about
    a rendering below is for a wide character that is not negative. *)
Definition ctrl_symbolic_name (wc : Z) : option string :=
  match ctrl_symbolic_names !! Z.to_nat wc with
  | Some e => e
  | None => None
  end.

(** The eighteen characters of the literal handed to [wcschr] in
    [must_escape]: brackets, parentheses, angle brackets, braces, star,
    backslash, question mark, dollar, hash, semicolon, ampersand, bar and the
    two quotes. *)
Definition must_escape_chars : list Z :=
  [91; 93; 40; 41; 60; 62; 123; 125; 42; 92; 63; 36; 35; 59; 38; 124; 39; 34].

(** [wcschr] also finds the terminating null of its first argument. *)
Definition wcschr (s : list Z) (wc : Z) : bool :=
  existsb (Z.eqb wc) (s ++ [0]).

Definition must_escape (wc : Z) : bool := wcschr must_escape_chars wc.

Definition ctrl_to_symbol (wc : Z) (bind_friendly : bool) : string :=
  match ctrl_symbolic_name wc with
  | Some name =>
      if bind_friendly then Fmt.printf [Some name]
      else Fmt.printf [Some "\c"%string; Fmt.c (wc + 64); Some "  (or "%string;
                       Some name; Some ")"%string]
  | None => Fmt.printf [Some "\c"%string; Fmt.c (wc + 64)]
  end.

Definition space_to_symbol (wc : Z) (bind_friendly : bool) : string :=
  if bind_friendly then "\x" +:+ Fmt.X wc
  else "\x" +:+ Fmt.X wc +:+ "  (aka " +:+ Fmt.dquote +:+ "space" +:+ Fmt.dquote +:+ ")".

Definition del_to_symbol (wc : Z) (bind_friendly : bool) : string :=
  if bind_friendly then "\x" +:+ Fmt.X wc
  else "\x" +:+ Fmt.X wc +:+ "  (aka " +:+ Fmt.dquote +:+ "del" +:+ Fmt.dquote +:+ ")".

Definition ascii_printable_to_symbol (wc : Z) (bind_friendly : bool) : string :=
  if bind_friendly && must_escape wc then Fmt.printf [Some "\"%string; Fmt.c wc]
  else Fmt.printf [Fmt.c wc].

(** The static buffer of the source holds 64 wide characters and every
    rendering below is shorter, so the value returned is the text formatted.
    Each caller writes it out before the next call. *)
Definition char_to_symbol (wc : Z) (bind_friendly : bool) : string :=
  if wc <? 32 then ctrl_to_symbol wc bind_friendly
  else if wc =? 32 then space_to_symbol wc bind_friendly
  else if wc =? 127 then del_to_symbol wc bind_friendly
  else if wc <? 128 then ascii_printable_to_symbol wc bind_friendly
  else if wc <=? 65535 then "\u" +:+ Fmt.X0 4 wc
  else "\U" +:+ Fmt.X0 6 wc.

(** ** The process state *)

(** What the program keeps between calls and what it has written so far. *)
Record world := World {
  exit_recent_chars : list Z;   (* [recent_chars[4]], static in [should_exit] *)
  seq_recent_chars : list Z;    (* [recent_chars[8]], static in [sequence_name] *)
  keep_running : bool;
  out : string;                 (* text written to [stdout] *)
  err : string;                 (* text written to [stderr] *)
  chained : list (Z * bool)     (* calls passed on to earlier handlers:
                                   signal number, called with siginfo *)
}.

Definition initial_world : world :=
  {| exit_recent_chars := [0; 0; 0; 0];
     seq_recent_chars := [0; 0; 0; 0; 0; 0; 0; 0];
     keep_running := true;
     out := EmptyString; err := EmptyString; chained := [] |}.

(** Record updates, one per field the program writes. *)
Definition write_out (w : world) (s : string) : world :=
  {| exit_recent_chars := exit_recent_chars w;
     seq_recent_chars := seq_recent_chars w;
     keep_running := keep_running w;
     out := out w +:+ s; err := err w; chained := chained w |}.

Definition write_err (w : world) (s : string) : world :=
  {| exit_recent_chars := exit_recent_chars w;
     seq_recent_chars := seq_recent_chars w;
     keep_running := keep_running w;
     out := out w; err := err w +:+ s; chained := chained w |}.

Definition set_window4 (w : world) (r : list Z) : world :=
  {| exit_recent_chars := r;
     seq_recent_chars := seq_recent_chars w;
     keep_running := keep_running w;
     out := out w; err := err w; chained := chained w |}.

Definition set_window8 (w : world) (r : list Z) : world :=
  {| exit_recent_chars := exit_recent_chars w;
     seq_recent_chars := r;
     keep_running := keep_running w;
     out := out w; err := err w; chained := chained w |}.

Definition set_flag (w : world) (b : bool) : world :=
  {| exit_recent_chars := exit_recent_chars w;
     seq_recent_chars := seq_recent_chars w;
     keep_running := b;
     out := out w; err := err w; chained := chained w |}.

Definition log_chained (w : world) (call : Z * bool) : world :=
  {| exit_recent_chars := exit_recent_chars w;
     seq_recent_chars := seq_recent_chars w;
     keep_running := keep_running w;
     out := out w; err := err w; chained := chained w ++ [call] |}.

(** Computations that read and write the process state. *)
Definition M (A : Type) : Type := world -> A * world.

Global Instance M_ret : MRet M := fun A (a : A) w => (a, w).

Global Instance M_bind : MBind M :=
  fun A B (k : A -> M B) (m : M A) w => let (a, w') := m w in k a w'.

Definition get {A : Type} (f : world -> A) : M A := fun w => (f w, w).

Definition fputws_stdout (s : string) : M unit := fun w => (tt, write_out w s).

Definition fputws_stderr (s : string) : M unit := fun w => (tt, write_err w s).

Definition set_exit_recent_chars (r : list Z) : M unit :=
  fun w => (tt, set_window4 w r).

Definition set_seq_recent_chars (r : list Z) : M unit :=
  fun w => (tt, set_window8 w r).

Definition set_keep_running (b : bool) : M unit := fun w => (tt, set_flag w b).

(** The earlier handler of a signal is code outside this program; it cannot
    reach [keep_running] or the two windows, which are static to this file.
    The call is logged. *)
Definition call_previous_handler (signo : Z) (with_siginfo : bool) : M unit :=
  fun w => (tt, log_chained w (signo, with_siginfo)).

(** ** What the program takes from its surroundings *)

Inductive sighandler := SIG_IGN | SIG_DFL | SIG_FN.

Record sigaction := {
  sa_handler : sighandler;
  sa_siginfo : bool            (* [sa_flags & SA_SIGINFO] *)
}.

(** The terminal's special characters, the capability-name lookup of
    [input.h] (applied to the bytes [str2wcstring] has widened, which are all
    below 0x80), the signal names and numbers of [signal.h], and the
    dispositions [install_our_signal_handlers] has saved. *)
Record platform := {
  c_cc_VINTR : Z;
  c_cc_VEOF : Z;
  input_terminfo_get_name : list Z -> option string;
  sig2wcs : Z -> string;
  SIGHUP : Z;
  SIGTERM : Z;
  SIGABRT : Z;
  SIGSEGV : Z;
  old_sigactions : Z -> sigaction
}.

(** [unsigned char c = wc < 0x80 ? wc : 0]. *)
Definition narrow (wc : Z) : Z := if wc <? 128 then wc mod 256 else 0.

(** [memcmp(a, b, n) == 0]. *)
Definition memcmp_eq (a b : list Z) (n : nat) : bool :=
  bool_decide (take n a = take n b).

Definition exit_word : list Z := [101; 120; 105; 116].
Definition quit_word : list Z := [113; 117; 105; 116].

Section Program.

Variable P : platform.

(** *** Exit-Sequence Detector *)

Definition press_again (cc : Z) : string :=
  Fmt.printf [Some "Press [ctrl-"%string; Fmt.c (cc + 64);
              Some ("] again to exit" +:+ Fmt.nl)].

Definition should_exit (wc : Z) : M bool :=
  let c := narrow wc in
  r ← get exit_recent_chars;
  let r := <[0%nat := r !!! 1%nat]> r in
  let r := <[1%nat := r !!! 2%nat]> r in
  let r := <[2%nat := r !!! 3%nat]> r in
  let r := <[3%nat := c]> r in
  set_exit_recent_chars r ;;
  if c =? c_cc_VINTR P then
    if r !!! 2%nat =? c_cc_VINTR P then mret true
    else fputws_stderr (press_again (c_cc_VINTR P)) ;; mret false
  else if c =? c_cc_VEOF P then
    if r !!! 2%nat =? c_cc_VEOF P then mret true
    else fputws_stderr (press_again (c_cc_VEOF P)) ;; mret false
  else mret (memcmp_eq r exit_word 4 || memcmp_eq r quit_word 4).

(** *** Terminal-Sequence Matcher *)

(** The [for] loop of [sequence_name] with [k = idx + 1] iterations to go:
    the iteration at [idx] looks up the [8 - idx] bytes that start at
    [recent_chars + idx]. *)
Fixpoint sequence_name_scan (k : nat) (recent_chars : list Z) : option string :=
  match k with
  | O => None
  | S idx =>
      match input_terminfo_get_name P (take (8 - idx) (drop idx recent_chars)) with
      | Some out_name => Some out_name
      | None => sequence_name_scan idx recent_chars
      end
  end.

Definition sequence_name (wc : Z) : M (option string) :=
  let c := narrow wc in
  r ← get seq_recent_chars;
  let r := <[0%nat := r !!! 1%nat]> r in
  let r := <[1%nat := r !!! 2%nat]> r in
  let r := <[2%nat := r !!! 3%nat]> r in
  let r := <[3%nat := r !!! 4%nat]> r in
  let r := <[4%nat := r !!! 5%nat]> r in
  let r := <[5%nat := r !!! 6%nat]> r in
  let r := <[6%nat := r !!! 7%nat]> r in
  let r := <[7%nat := c]> r in
  set_seq_recent_chars r ;;
  mret (sequence_name_scan 8 r).

(** *** Bind-Command Accumulator *)

Definition add_char_to_bind_command (wc : Z) (bind_chars : list Z) : list Z :=
  bind_chars ++ [wc].

(** The [for] loop of [output_bind_command] from index [i], with [n]
    iterations to go. *)
Fixpoint output_bind_chars (n i : nat) (bind_chars : list Z) : M unit :=
  match n with
  | O => mret tt
  | S n' =>
      fputws_stdout (char_to_symbol (bind_chars !!! i) true) ;;
      output_bind_chars n' (S i) bind_chars
  end.

(** The vector is passed by reference; its new value is returned. *)
Definition output_bind_command (bind_chars : list Z) : M (list Z) :=
  if (0 <? length bind_chars)%nat then
    fputws_stdout "bind " ;;
    output_bind_chars (length bind_chars) 0 bind_chars ;;
    fputws_stdout (" 'do something'" +:+ Fmt.nl) ;;
    mret []
  else mret bind_chars.

Definition output_info_about_char (wc : Z) : M unit :=
  fputws_stderr ("hex: " +:+ Fmt.Xw 4 wc +:+ "  char: "
                 +:+ char_to_symbol wc false +:+ Fmt.nl).

(** [bind -k <name> 'do something'] and a newline. *)
Definition key_line (name : string) : string :=
  "bind -k " +:+ name +:+ " 'do something'" +:+ Fmt.nl.

Definition output_matching_key_name (wc : Z) : M bool :=
  name ← sequence_name wc;
  match name with
  | Some name =>
      fputws_stdout (key_line name) ;;
      mret true
  | None => mret false
  end.

(** *** Elapsed time *)

(** [1000000 * (now - prev_tstamp)] in binary64 arithmetic. *)
Definition scaled_delta (now prev_tstamp : float) : float :=
  (1000000 * (now - prev_tstamp))%float.

(** The conversion of that [double] to [long long int]: the fraction is
    dropped.  A value that does not fit, an infinity or a NaN has no defined
    conversion in C; [LLONG_MIN] stands for it, as on x86-64. *)
Definition LLONG_MIN : Z := - 2 ^ 63.

Definition to_long_long (f : float) : Z :=
  match Prim2SF f with
  | S754_zero _ => 0
  | S754_finite s m e =>
      let v := if 0 <=? e then Z.pos m * 2 ^ e else Z.pos m / 2 ^ (- e) in
      let v := if s then - v else v in
      if (LLONG_MIN <=? v) && (v <? 2 ^ 63) then v else LLONG_MIN
  | _ => LLONG_MIN
  end.

Definition delta_tstamp_us (now prev_tstamp : float) : Z :=
  to_long_long (scaled_delta now prev_tstamp).

(** [timef()] is read by the caller and handed in as [now]. *)
Definition output_elapsed_time (now prev_tstamp : float) (first_char_seen : bool)
  : M float :=
  let delta_tstamp_us := delta_tstamp_us now prev_tstamp in
  (if (200000 <=? delta_tstamp_us) && first_char_seen
   then fputws_stderr Fmt.nl else mret tt) ;;
  (if 1000000 <=? delta_tstamp_us
   then fputws_stderr "              "
   else fputws_stderr ("(" +:+ Fmt.dw 3 (Z.quot delta_tstamp_us 1000) +:+ "."
                       +:+ Fmt.d0 3 (Z.rem delta_tstamp_us 1000) +:+ " ms)  ")) ;;
  mret now.

(** *** Signals *)

(** The message is the untranslated one; the catalogue behind [_()] is not
    part of this file.  [siginfo] is only passed on, so the handler is a
    function of the signal number. *)
Definition signal_handler (signo : Z) : M unit :=
  fputws_stdout ("signal #" +:+ Fmt.d signo +:+ " (" +:+ sig2wcs P signo
                 +:+ ") received" +:+ Fmt.nl) ;;
  (if (signo =? SIGHUP P) || (signo =? SIGTERM P) || (signo =? SIGABRT P)
      || (signo =? SIGSEGV P)
   then set_keep_running false else mret tt) ;;
  match sa_handler (old_sigactions P signo) with
  | SIG_IGN | SIG_DFL => mret tt
  | SIG_FN =>
      let needs_siginfo := sa_siginfo (old_sigactions P signo) in
      if needs_siginfo then call_previous_handler signo true
      else call_previous_handler signo false
  end.

(** The handler run once for each signal of a list, in order. *)
Fixpoint deliver (signals : list Z) : M unit :=
  match signals with
  | [] => mret tt
  | signo :: rest => signal_handler signo ;; deliver rest
  end.

(** *** Session Loop *)

(** What one turn of the loop receives: the signals that arrive while it
    waits for its event, the answer of [reader_test_and_clear_interrupted],
    the event of [readch_timed] ([None] when it is not a character) and the
    clock read by [timef]. *)
Record tick := {
  signals : list Z;
  interrupted : bool;
  readch_timed : option Z;
  timef : float
}.

Record locals := {
  first_char_seen : bool;
  prev_tstamp : float;
  bind_chars : list Z
}.

Inductive control := Continue | Break | Return.

(** The event a turn handles: the interrupt character when an interrupt was
    latched, else what [readch_timed] gave. *)
Definition next_event (t : tick) : option Z :=
  if interrupted t then Some (c_cc_VINTR P) else readch_timed t.

Definition loop_body (continuous_mode : bool) (t : tick) (l : locals)
  : M (control * locals) :=
  match next_event t with
  | None =>
      bc ← output_bind_command (bind_chars l);
      let l := {| first_char_seen := first_char_seen l;
                  prev_tstamp := prev_tstamp l; bind_chars := bc |} in
      if first_char_seen l && negb continuous_mode then mret (Return, l)
      else mret (Continue, l)
  | Some wc =>
      prev ← output_elapsed_time (timef t) (prev_tstamp l) (first_char_seen l);
      let bc := add_char_to_bind_command wc (bind_chars l) in
      output_info_about_char wc ;;
      hit ← output_matching_key_name wc;
      bc ← (if hit : bool then output_bind_command bc else mret bc);
      stop ← should_exit wc;
      if stop : bool then
        fputws_stderr (Fmt.nl +:+ "Exiting at your request." +:+ Fmt.nl) ;;
        mret (Break, {| first_char_seen := first_char_seen l;
                        prev_tstamp := prev; bind_chars := bc |})
      else
        mret (Continue, {| first_char_seen := true;
                           prev_tstamp := prev; bind_chars := bc |})
  end.

(** How the loop was left: the event script ran out with the loop still
    running, [keep_running] was found false, [break] after the exit
    request, or [return] after an event that is not a character. *)
Inductive outcome := Pending | Stopped | Exited | Returned.

(** [while (keep_running) { ... }] over a finite script of turns.  A signal
    is taken to arrive while the turn waits for its event, after the test of
    [keep_running], so its effect on the flag shows at the next test. *)
Fixpoint process_loop (continuous_mode : bool) (ticks : list tick) (l : locals)
  : M (outcome * locals) :=
  k ← get keep_running;
  if k : bool then
    match ticks with
    | [] => mret (Pending, l)
    | t :: rest =>
        deliver (signals t) ;;
        r ← loop_body continuous_mode t l;
        match r with
        | (Continue, l') => process_loop continuous_mode rest l'
        | (Break, l') => mret (Exited, l')
        | (Return, l') => mret (Returned, l')
        end
    end
  else mret (Stopped, l).

Definition process_input (continuous_mode : bool) (ticks : list tick)
  : M (outcome * locals) :=
  let l := {| first_char_seen := false; prev_tstamp := 0%float;
              bind_chars := [] |} in
  fputws_stderr ("Press a key" +:+ Fmt.nl +:+ Fmt.nl) ;;
  process_loop continuous_mode ticks l.

End Program.

(** ** A concrete platform for running the model *)

Definition no_capabilities (_ : list Z) : option string := None.

Definition posix_signal_name (signo : Z) : string :=
  if signo =? 1 then "SIGHUP" else if signo =? 15 then "SIGTERM"
  else if signo =? 2 then "SIGINT" else "SIG".

(** Interrupt is ctrl-C, end of file is ctrl-D; Linux signal numbers. *)
Definition plain_tty (lookup : list Z -> option string) : platform :=
  {| c_cc_VINTR := 3; c_cc_VEOF := 4;
     input_terminfo_get_name := lookup;
     sig2wcs := posix_signal_name;
     SIGHUP := 1; SIGTERM := 15; SIGABRT := 6; SIGSEGV := 11;
     old_sigactions := fun _ => {| sa_handler := SIG_DFL; sa_siginfo := false |} |}.


Definition key (wc : Z) (at_time : float) : tick :=
  {| signals := []; interrupted := false; readch_timed := Some wc; timef := at_time |}.

Definition pause : tick :=
  {| signals := []; interrupted := false; readch_timed := None; timef := 0%float |}.


(** A capability table searched front to back, as a [platform] lookup. *)
Fixpoint lookup_capability (table : list (string * list Z)) (seq : list Z)
  : option string :=
  match table with
  | [] => None
  | (name, s) :: rest =>
      if bool_decide (s = seq) then Some name else lookup_capability rest seq
  end.

(** The detector fed one byte after the other, with every answer kept. *)
Fixpoint should_exit_each (P : platform) (wcs : list Z) : M (list bool) :=
  match wcs with
  | [] => mret []
  | wc :: rest =>
      b ← should_exit P wc;
      bs ← should_exit_each P rest;
      mret (b :: bs)
  end.

(** ** Vocabulary of the properties *)

(** The eight named control characters, as the format rule lists them. *)
Definition control_name (wc : Z) : option string :=
  match wc with
  | 7 => Some "\a"%string
  | 8 => Some "\b"%string
  | 9 => Some "\t"%string
  | 10 => Some "\n"%string
  | 11 => Some "\v"%string
  | 12 => Some "\f"%string
  | 13 => Some "\r"%string
  | 27 => Some "\e"%string
  | _ => None
  end.

(** [\cX] with [X = wc + 0x40]. *)
Definition control_letter_form (wc : Z) : string := "\c" +:+ Fmt.chr (wc + 64).

(** The bind-friendly renderings of [cs] one after the other, with nothing
    in between. *)
Definition symbols (cs : list Z) : string :=
  foldr (fun wc rest => char_to_symbol wc true +:+ rest) EmptyString cs.

Definition bind_line (cs : list Z) : string :=
  "bind " +:+ symbols cs +:+ " 'do something'" +:+ Fmt.nl.

(** What a flush writes: nothing for the empty accumulator. *)
Definition flush_text (cs : list Z) : string :=
  match cs with
  | [] => EmptyString
  | _ :: _ => bind_line cs
  end.

Fixpoint count_newlines (s : string) : nat :=
  match s with
  | EmptyString => 0
  | String a rest =>
      ((if Ascii.eqb a (ascii_of_nat 10) then 1 else 0) + count_newlines rest)%nat
  end.

(** The last [L] bytes of a window. *)
Definition trailing (L : nat) (r : list Z) : list Z := drop (length r - L) r.

(** The eight assignments that shift the matcher's window, as a function of
    the window. *)
Definition shifted8 (r : list Z) (c : Z) : list Z :=
  let r := <[0%nat := r !!! 1%nat]> r in
  let r := <[1%nat := r !!! 2%nat]> r in
  let r := <[2%nat := r !!! 3%nat]> r in
  let r := <[3%nat := r !!! 4%nat]> r in
  let r := <[4%nat := r !!! 5%nat]> r in
  let r := <[5%nat := r !!! 6%nat]> r in
  let r := <[6%nat := r !!! 7%nat]> r in
  <[7%nat := c]> r.

Definition terminating_signal (P : platform) (signo : Z) : Prop :=
  signo = SIGHUP P \/ signo = SIGTERM P \/ signo = SIGABRT P \/ signo = SIGSEGV P.

Definition signal_report (P : platform) (signo : Z) : string :=
  "signal #" +:+ Fmt.d signo +:+ " (" +:+ sig2wcs P signo +:+ ") received" +:+ Fmt.nl.

Definition fourteen_spaces : string := Fmt.replicate_char 14 32.

(** [(DDD.DDD ms)  ]: milliseconds, a dot, the microseconds left over. *)
Definition elapsed_ms_text (delta_us : Z) : string :=
  "(" +:+ Fmt.dw 3 (Z.quot delta_us 1000) +:+ "."
  +:+ Fmt.d0 3 (Z.rem delta_us 1000) +:+ " ms)  ".

Definition elapsed_text (delta_us : Z) (first_char_seen : bool) : string :=
  (if (200000 <=? delta_us) && first_char_seen then Fmt.nl else EmptyString)
  +:+ (if 1000000 <=? delta_us then fourteen_spaces else elapsed_ms_text delta_us).

Definition with_bind_chars (l : locals) (cs : list Z) : locals :=
  {| first_char_seen := first_char_seen l; prev_tstamp := prev_tstamp l;
     bind_chars := cs |}.

(** ** Vocabulary of the further properties *)

(** The value of one uppercase hexadecimal digit. *)
Definition hex_digit_value (a : ascii) : option Z :=
  let n := Z.of_nat (nat_of_ascii a) in
  if (48 <=? n) && (n <=? 57) then Some (n - 48)
  else if (65 <=? n) && (n <=? 70) then Some (n - 55)
  else None.

(** Reads a string of uppercase hexadecimal digits, most significant first,
    on top of the value [v] read so far. *)
Fixpoint hex_value_from (v : Z) (s : string) : option Z :=
  match s with
  | EmptyString => Some v
  | String a rest =>
      match hex_digit_value a with
      | Some d => hex_value_from (16 * v + d) rest
      | None => None
      end
  end.

Definition hex_value (s : string) : option Z := hex_value_from 0 s.

(** Does the text start with a backslash and then [u] or [U]? *)
Definition starts_with_unicode_escape (s : string) : bool :=
  match s with
  | String a (String b _) =>
      Ascii.eqb a (ascii_of_nat 92)
      && (Ascii.eqb b (ascii_of_nat 117) || Ascii.eqb b (ascii_of_nat 85))
  | _ => false
  end.

(** The matcher fed one character after the other, with every answer kept. *)
Fixpoint sequence_name_each (P : platform) (wcs : list Z) : M (list (option string)) :=
  match wcs with
  | [] => mret []
  | wc :: rest =>
      name ← sequence_name P wc;
      names ← sequence_name_each P rest;
      mret (name :: names)
  end.

(** The lines the program writes to the primary output: the binding of a
    named key, the binding of a non-empty run of characters, the report of a
    signal. *)
Inductive stdout_line (P : platform) : string -> Prop :=
  | stdout_key_line (name : string) : stdout_line P (key_line name)
  | stdout_bind_line (cs : list Z) : cs <> [] -> stdout_line P (bind_line cs)
  | stdout_signal_report (signo : Z) : stdout_line P (signal_report P signo).

Definition concat_lines (lines : list string) : string :=
  foldr Fmt.cat EmptyString lines.

(** The characters of the events of a script, in order. *)
Definition typed_chars (P : platform) (ticks : list tick) : list Z :=
  omap (next_event P) ticks.

(** No signal arrives during the script. *)
Definition no_signals (ticks : list tick) : Prop :=
  Forall (fun t => signals t = []) ticks.

(** No signal of the script is one that clears [keep_running]. *)
Definition no_terminating_signal (P : platform) (ticks : list tick) : Prop :=
  Forall (fun t => Forall (fun signo => ~ terminating_signal P signo) (signals t)) ticks.

Definition farewell : string := Fmt.nl +:+ "Exiting at your request." +:+ Fmt.nl.

(** ** Installing the handler *)

(** A [struct sigaction] as [install_our_signal_handlers] reads it: the
    handler and the whole of [sa_flags]. *)
Record saved_sigaction := {
  saved_handler : sighandler;
  saved_flags : Z
}.

(** The two calls of [debug(3, ...)]. *)
Inductive debug_message :=
  | Debug_was_ignored (signo : Z)
  | Debug_had_flags (signo : Z) (sa_flags : Z).

(** The [for] loop of [install_our_signal_handlers] at [signo], with [n]
    iterations to go.  [sys_sigaction signo] is what the system call
    [sigaction(signo, &new_sa, &old_sa)] gives: [Some old_sa] when it
    succeeds, [None] when it returns -1.  [table] is [old_sigactions];
    the calls of [debug] are collected in [log]. *)
Fixpoint install_loop (sys_sigaction : Z -> option saved_sigaction) (SA_SIGINFO : Z)
  (n : nat) (signo : Z) (table : list saved_sigaction) (log : list debug_message)
  : list saved_sigaction * list debug_message :=
  match n with
  | O => (table, log)
  | S n' =>
      match sys_sigaction signo with
      | Some old_sa =>
          let table := <[Z.to_nat signo := old_sa]> table in
          let log := match saved_handler old_sa with
                     | SIG_IGN => log ++ [Debug_was_ignored signo]
                     | _ => log
                     end in
          let log := if negb (saved_flags old_sa =? 0)
                        && negb (Z.lnot SA_SIGINFO =? 0)
                     then log ++ [Debug_had_flags signo (saved_flags old_sa)]
                     else log in
          install_loop sys_sigaction SA_SIGINFO n' (signo + 1) table log
      | None => install_loop sys_sigaction SA_SIGINFO n' (signo + 1) table log
      end
  end.

(** [for (int signo = 1; signo < 32; signo++)]. *)
Definition install_our_signal_handlers (sys_sigaction : Z -> option saved_sigaction)
  (SA_SIGINFO : Z) (old_sigactions : list saved_sigaction)
  : list saved_sigaction * list debug_message :=
  install_loop sys_sigaction SA_SIGINFO 31 1 old_sigactions [].

(** The saved table as [signal_handler] reads it. *)
Definition saved_disposition (SA_SIGINFO : Z) (table : list saved_sigaction)
  (default : saved_sigaction) (signo : Z) : sigaction :=
  let sa := match table !! Z.to_nat signo with
            | Some sa => sa
            | None => default
            end in
  {| sa_handler := saved_handler sa;
     sa_siginfo := negb (Z.land (saved_flags sa) SA_SIGINFO =? 0) |}.

(** The message [m] is one the iteration at [signo] hands to [debug]. *)
Definition debug_logged (sys_sigaction : Z -> option saved_sigaction) (signo : Z)
  (m : debug_message) : Prop :=
  exists old_sa : saved_sigaction,
    sys_sigaction signo = Some old_sa
    /\ ((m = Debug_was_ignored signo /\ saved_handler old_sa = SIG_IGN)
        \/ (m = Debug_had_flags signo (saved_flags old_sa) /\ saved_flags old_sa <> 0)).

(** A sample of earlier dispositions: SIGKILL and SIGSTOP cannot be caught,
    SIGINT had a handler that asked for the signal information, SIGPIPE was
    ignored, the others were at their default. *)
Definition zero_sigaction : saved_sigaction :=
  {| saved_handler := SIG_DFL; saved_flags := 0 |}.

Definition sample_sigaction (signo : Z) : option saved_sigaction :=
  if (signo =? 9) || (signo =? 19) then None
  else if signo =? 2 then Some {| saved_handler := SIG_FN; saved_flags := 4 |}
  else if signo =? 13 then Some {| saved_handler := SIG_IGN; saved_flags := 0 |}
  else Some zero_sigaction.

Definition installed_tty : platform :=
  {| c_cc_VINTR := 3; c_cc_VEOF := 4;
     input_terminfo_get_name := no_capabilities;
     sig2wcs := posix_signal_name;
     SIGHUP := 1; SIGTERM := 15; SIGABRT := 6; SIGSEGV := 11;
     old_sigactions :=
       saved_disposition 4
         (fst (install_our_signal_handlers sample_sigaction 4
                 (replicate 32 zero_sigaction))) zero_sigaction |}.

(** * Properties *)

(** Unfolds the monad down to state passing. *)
Ltac run :=
  cbv [mbind M_bind mret M_ret get fputws_stdout fputws_stderr
       set_exit_recent_chars set_seq_recent_chars set_keep_running
       call_previous_handler].

(** ** Strings and state updates *)

Lemma cat_assoc (a b c : string) : (a +:+ b) +:+ c = a +:+ b +:+ c.
Proof. unfold Fmt.cat. induction a; simpl; congruence. Qed.

Lemma cat_empty_r (a : string) : a +:+ EmptyString = a.
Proof. unfold Fmt.cat. induction a; simpl; congruence. Qed.

Lemma length_cat (a b : string) :
  String.length (a +:+ b) = (String.length a + String.length b)%nat.
Proof. unfold Fmt.cat. induction a; simpl; congruence. Qed.

Lemma count_newlines_cat (a b : string) :
  count_newlines (a +:+ b) = (count_newlines a + count_newlines b)%nat.
Proof. unfold Fmt.cat. induction a; simpl; [done|]. rewrite IHa. lia. Qed.

Lemma write_out_twice (w : world) (a b : string) :
  write_out (write_out w a) b = write_out w (a +:+ b).
Proof. unfold write_out. simpl. by rewrite cat_assoc. Qed.

Lemma write_err_twice (w : world) (a b : string) :
  write_err (write_err w a) b = write_err w (a +:+ b).
Proof. unfold write_err. simpl. by rewrite cat_assoc. Qed.

Lemma write_out_empty (w : world) : write_out w EmptyString = w.
Proof. destruct w. unfold write_out. simpl. by rewrite cat_empty_r. Qed.

(** ** Symbol Formatter *)

Example char_to_symbol_samples :
  char_to_symbol 97 true = "a"%string
  /\ char_to_symbol 32 true = "\x20"%string
  /\ char_to_symbol 127 true = "\x7F"%string
  /\ char_to_symbol 42 true = "\*"%string
  /\ char_to_symbol 42 false = "*"%string
  /\ char_to_symbol 233 true = "\u00E9"%string
  /\ char_to_symbol 128512 true = "\U01F600"%string
  /\ char_to_symbol 3 true = "\cC"%string
  /\ char_to_symbol 10 false = "\cJ  (or \n)"%string.
Proof. repeat split; reflexivity. Qed.

Example printf_field_samples :
  Fmt.d0 3 7 = "007"%string /\ Fmt.dw 3 12 = " 12"%string
  /\ Fmt.d 0 = "0"%string /\ Fmt.d0 3 (-5) = "-05"%string
  /\ Fmt.Xw 4 97 = "  61"%string.
Proof. repeat split; reflexivity. Qed.

Lemma below_32_cases (wc : Z) :
  0 <= wc < 32 -> exists n : nat, (n < 32)%nat /\ wc = Z.of_nat n.
Proof. intros H. exists (Z.to_nat wc). lia. Qed.

Lemma ctrl_symbolic_name_table (wc : Z) :
  0 <= wc < 32 -> ctrl_symbolic_name wc = control_name wc.
Proof.
  intros H. destruct (below_32_cases wc H) as (n & Hn & ->).
  do 32 (destruct n as [|n]; [reflexivity|]). lia.
Qed.

Lemma control_char_c (wc : Z) :
  0 <= wc < 32 -> Fmt.c (wc + 64) = Some (Fmt.chr (wc + 64)).
Proof.
  intros H. unfold Fmt.c. cbv zeta. rewrite Z.mod_small by lia.
  by replace (wc + 64 <? 128) with true by lia.
Qed.

(** C2, as the code has it: a control character without a name renders as
    [\cX], X = code point + 0x40, in both modes; a named one (7, 8, 9, 10, 11,
    12, 13, 27) renders as [\cX  (or <name>)] in the human mode and as the
    bare name in the bind-friendly mode. *)
Theorem char_to_symbol_control (wc : Z) (Hwc : 0 <= wc < 32) :
  match control_name wc with
  | Some name =>
      char_to_symbol wc true = name
      /\ char_to_symbol wc false
         = control_letter_form wc +:+ "  (or " +:+ name +:+ ")"
  | None =>
      forall bind_friendly : bool,
        char_to_symbol wc bind_friendly = control_letter_form wc
  end.
Proof.
  unfold char_to_symbol, ctrl_to_symbol, control_letter_form.
  replace (wc <? 32) with true by lia.
  rewrite ctrl_symbolic_name_table, control_char_c by exact Hwc.
  destruct (control_name wc) as [name|]; [split|intros []];
    cbn [Fmt.printf]; rewrite ?cat_empty_r; reflexivity.
Qed.

Lemma char_to_symbol_control_witness :
  char_to_symbol 13 true = "\r"%string
  /\ char_to_symbol 13 false = "\cM  (or \r)"%string.
Proof. exact (char_to_symbol_control 13 ltac:(lia)). Defined.

(** C2, as stated, fails at code point 10: the bind-friendly rendering is the
    bare name [\n], not [\cJ]. *)
Lemma char_to_symbol_newline_is_bare_name :
  char_to_symbol 10 true = "\n"%string
  /\ char_to_symbol 10 true <> control_letter_form 10
  /\ control_letter_form 10 = "\cJ"%string.
Proof. repeat split; try reflexivity. discriminate. Qed.


(** ** Exit-Sequence Detector *)

Lemma length_4_inv (r : list Z) :
  length r = 4%nat -> exists a b c d, r = [a; b; c; d].
Proof.
  intros H. do 4 (destruct r as [|? r]; [discriminate|]).
  destruct r; [|discriminate]. by eauto.
Qed.

(** What one call does to a window [[a; b; c; d]]: the window becomes
    [[b; c; d; narrow wc]] and the answer depends on [d], the byte of the
    event just before. *)
Lemma should_exit_on_window (P : platform) (wc a b c d : Z) (w : world) :
  exit_recent_chars w = [a; b; c; d] ->
  should_exit P wc w =
    let ch := narrow wc in
    let w1 := set_window4 w [b; c; d; ch] in
    if ch =? c_cc_VINTR P then
      if d =? c_cc_VINTR P then (true, w1)
      else (false, write_err w1 (press_again (c_cc_VINTR P)))
    else if ch =? c_cc_VEOF P then
      if d =? c_cc_VEOF P then (true, w1)
      else (false, write_err w1 (press_again (c_cc_VEOF P)))
    else (memcmp_eq [b; c; d; ch] exit_word 4 || memcmp_eq [b; c; d; ch] quit_word 4,
          w1).
Proof.
  intros Hr. unfold should_exit. run. rewrite Hr. cbn -[Z.eqb memcmp_eq narrow].
  destruct (narrow wc =? c_cc_VINTR P); [destruct (d =? c_cc_VINTR P); reflexivity|].
  destruct (narrow wc =? c_cc_VEOF P); [destruct (d =? c_cc_VEOF P); reflexivity|].
  reflexivity.
Qed.

Lemma should_exit_window (P : platform) (wc a b c d : Z) (w : world) :
  exit_recent_chars w = [a; b; c; d] ->
  exit_recent_chars (snd (should_exit P wc w)) = [b; c; d; narrow wc].
Proof.
  intros Hr. rewrite (should_exit_on_window P wc a b c d w Hr). cbv zeta.
  repeat match goal with |- context [if ?x then _ else _] => destruct x end;
    reflexivity.
Qed.

(** The detector writes its window and the diagnostic stream, nothing else. *)
Lemma should_exit_frame (P : platform) (wc : Z) (w : world) :
  out (snd (should_exit P wc w)) = out w
  /\ keep_running (snd (should_exit P wc w)) = keep_running w
  /\ seq_recent_chars (snd (should_exit P wc w)) = seq_recent_chars w.
Proof.
  unfold should_exit. run.
  repeat match goal with |- context [if ?x then _ else _] => destruct x end;
    repeat split; reflexivity.
Qed.









Lemma should_exit_each_cons (P : platform) (wc : Z) (rest : list Z) (w : world) :
  should_exit_each P (wc :: rest) w =
    (fst (should_exit P wc w) :: fst (should_exit_each P rest (snd (should_exit P wc w))),
     snd (should_exit_each P rest (snd (should_exit P wc w)))).
Proof.
  simpl. run. destruct (should_exit P wc w) as [b w1]. simpl.
  destruct (should_exit_each P rest w1). reflexivity.
Qed.

Lemma narrow_ascii (ch : Z) : 0 <= ch < 128 -> narrow ch = ch.
Proof.
  intros H. unfold narrow. replace (ch <? 128) with true by lia.
  apply Z.mod_small. lia.
Qed.











(** Its answer depends on its window only. *)
Lemma should_exit_answer_window (P : platform) (wc : Z) (w1 w2 : world) :
  exit_recent_chars w1 = exit_recent_chars w2 ->
  fst (should_exit P wc w1) = fst (should_exit P wc w2).
Proof.
  intros Hr. unfold should_exit. run. rewrite Hr.
  repeat match goal with |- context [if ?x then _ else _] => destruct x end;
    reflexivity.
Qed.

(** ** Terminal-Sequence Matcher *)

Lemma length_8_inv (r : list Z) :
  length r = 8%nat -> exists a b c d e f g h, r = [a; b; c; d; e; f; g; h].
Proof.
  intros H. do 8 (destruct r as [|? r]; [discriminate|]).
  destruct r; [|discriminate]. by repeat eexists.
Qed.

Lemma sequence_name_on_window (P : platform) (wc : Z) (w : world) :
  length (seq_recent_chars w) = 8%nat ->
  sequence_name P wc w =
    let r' := drop 1 (seq_recent_chars w) ++ [narrow wc] in
    (sequence_name_scan P 8 r', set_window8 w r').
Proof.
  intros Hlen. destruct (length_8_inv _ Hlen) as (a & b & c & d & e & f & g & h & Hr).
  unfold sequence_name. run. rewrite Hr. reflexivity.
Qed.

(** The scan answers with the first hit met while [idx] goes down, that is
    while the suffix grows. *)
Lemma sequence_name_scan_first_hit (P : platform) (r : list Z) :
  length r = 8%nat ->
  forall k : nat, (k <= 8)%nat ->
    match sequence_name_scan P k r with
    | Some name =>
        exists idx : nat, (idx < k)%nat
          /\ input_terminfo_get_name P (drop idx r) = Some name
          /\ forall j : nat, (idx < j < k)%nat ->
               input_terminfo_get_name P (drop j r) = None
    | None =>
        forall j : nat, (j < k)%nat -> input_terminfo_get_name P (drop j r) = None
    end.
Proof.
  intros Hlen. induction k as [|k IH]; intros Hk.
  - simpl. intros j Hj. lia.
  - simpl. rewrite take_ge by (rewrite length_drop; lia).
    destruct (input_terminfo_get_name P (drop k r)) as [name|] eqn:Hhit.
    + exists k. repeat split; [lia|done|]. intros j Hj. lia.
    + specialize (IH ltac:(lia)).
      destruct (sequence_name_scan P k r) as [name|].
      * destruct IH as (idx & Hidx & Hname & Hnone).
        exists idx. repeat split; [lia|done|].
        intros j Hj. destruct (decide (j = k)) as [->|]; [done|].
        apply Hnone. lia.
      * intros j Hj. destruct (decide (j = k)) as [->|]; [done|].
        apply IH. lia.
Qed.

(** C1, as the code has it: after the byte is pushed into the 8-byte
    window, [sequence_name] tries the suffix lengths from 1 up to 8 and
    answers with the name of the shortest suffix the capability table knows;
    it answers nothing exactly when no suffix of length 1 to 8 is known. *)
Theorem sequence_name_shortest_suffix (P : platform) (wc : Z) (w : world)
  (Hlen : length (seq_recent_chars w) = 8%nat) :
  let r' := drop 1 (seq_recent_chars w) ++ [narrow wc] in
  seq_recent_chars (snd (sequence_name P wc w)) = r'
  /\ match fst (sequence_name P wc w) with
     | Some name =>
         exists L : nat, (1 <= L <= 8)%nat
           /\ input_terminfo_get_name P (trailing L r') = Some name
           /\ forall L' : nat, (1 <= L' < L)%nat ->
                input_terminfo_get_name P (trailing L' r') = None
     | None =>
         forall L : nat, (1 <= L <= 8)%nat ->
           input_terminfo_get_name P (trailing L r') = None
     end.
Proof.
  cbv zeta. rewrite (sequence_name_on_window P wc w Hlen). cbv zeta. cbn [fst snd].
  split; [reflexivity|].
  set (r' := drop 1 (seq_recent_chars w) ++ [narrow wc]).
  assert (Hr' : length r' = 8%nat).
  { unfold r'. rewrite length_app, length_drop, Hlen. reflexivity. }
  pose proof (sequence_name_scan_first_hit P r' Hr' 8 ltac:(lia)) as Hscan.
  unfold trailing. rewrite Hr'.
  destruct (sequence_name_scan P 8 r') as [name|].
  - destruct Hscan as (idx & Hidx & Hname & Hnone).
    exists (8 - idx)%nat. repeat split; [lia|lia| |].
    + replace (8 - (8 - idx))%nat with idx by lia. exact Hname.
    + intros L' HL'. apply Hnone. lia.
  - intros L HL. apply Hscan. lia.
Qed.

Lemma sequence_name_shortest_suffix_witness :
  let P := plain_tty (lookup_capability [("kcuu1"%string, [27; 91; 65])]) in
  let w := set_window8 initial_world [0; 0; 0; 0; 0; 0; 27; 91] in
  let r' := drop 1 (seq_recent_chars w) ++ [narrow 65] in
  seq_recent_chars (snd (sequence_name P 65 w)) = r'
  /\ match fst (sequence_name P 65 w) with
     | Some name =>
         exists L : nat, (1 <= L <= 8)%nat
           /\ input_terminfo_get_name P (trailing L r') = Some name
           /\ forall L' : nat, (1 <= L' < L)%nat ->
                input_terminfo_get_name P (trailing L' r') = None
     | None =>
         forall L : nat, (1 <= L <= 8)%nat ->
           input_terminfo_get_name P (trailing L r') = None
     end.
Proof.
  exact (sequence_name_shortest_suffix
           (plain_tty (lookup_capability [("kcuu1"%string, [27; 91; 65])])) 65
           (set_window8 initial_world [0; 0; 0; 0; 0; 0; 27; 91]) eq_refl).
Defined.

(** C1, as stated, fails on a table that knows both ESC [ A and the single
    byte A: once ESC, [, A have been pushed, the trailing three bytes are a
    known sequence of length 3, a shorter suffix is known under another name,
    and the answer is the shorter one. *)
Lemma sequence_name_longest_counterexample :
  let P := plain_tty (lookup_capability [("up"%string, [27; 91; 65]);
                                         ("A"%string, [65])]) in
  let w2 := snd (sequence_name P 91 (snd (sequence_name P 27 initial_world))) in
  let r := sequence_name P 65 w2 in
  trailing 3 (seq_recent_chars (snd r)) = [27; 91; 65]
  /\ input_terminfo_get_name P (trailing 3 (seq_recent_chars (snd r))) = Some "up"%string
  /\ input_terminfo_get_name P (trailing 1 (seq_recent_chars (snd r))) = Some "A"%string
  /\ fst r = Some "A"%string
  /\ fst r <> Some "up"%string.
Proof. cbv zeta. repeat split; try reflexivity. discriminate. Qed.

Lemma sequence_name_run (P : platform) (wc : Z) (w : world) :
  sequence_name P wc w =
    (sequence_name_scan P 8 (shifted8 (seq_recent_chars w) (narrow wc)),
     set_window8 w (shifted8 (seq_recent_chars w) (narrow wc))).
Proof. reflexivity. Qed.

(** ** Elapsed-time display *)

Lemma output_elapsed_time_run (now prev : float) (seen : bool) (w : world) :
  output_elapsed_time now prev seen w
  = (now, write_err w (elapsed_text (delta_tstamp_us now prev) seen)).
Proof.
  unfold output_elapsed_time, elapsed_text. run.
  destruct ((200000 <=? delta_tstamp_us now prev) && seen);
    destruct (1000000 <=? delta_tstamp_us now prev);
    rewrite ?write_err_twice; reflexivity.
Qed.

Lemma three_digit_fields (n : Z) :
  0 <= n < 1000 ->
  String.length (Fmt.dw 3 n) = 3%nat /\ String.length (Fmt.d0 3 n) = 3%nat.
Proof.
  intros Hn.
  assert (Hall : forallb (fun k : nat =>
            Nat.eqb (String.length (Fmt.dw 3 (Z.of_nat k))) 3
            && Nat.eqb (String.length (Fmt.d0 3 (Z.of_nat k))) 3)
          (seq 0 1000) = true) by (vm_compute; reflexivity).
  rewrite forallb_forall in Hall.
  specialize (Hall (Z.to_nat n)).
  rewrite Z2Nat.id in Hall by lia.
  assert (Hin : In (Z.to_nat n) (seq 0 1000)) by (apply in_seq; lia).
  apply Hall in Hin. apply andb_true_iff in Hin as [H1 H2].
  split; by apply Nat.eqb_eq.
Qed.

(** The conversion drops the fraction: a finite value that fits is cut
    towards zero. *)
Lemma to_long_long_truncates (f : float) (s : bool) (m : positive) (e : Z) :
  Prim2SF f = S754_finite s m e ->
  (0 <= e -> Z.pos m * 2 ^ e < 2 ^ 63 -> Z.abs (to_long_long f) = Z.pos m * 2 ^ e)
  /\ (e < 0 -> Z.pos m < 2 ^ 63 * 2 ^ (- e) ->
      Z.abs (to_long_long f) * 2 ^ (- e) <= Z.pos m
      < (Z.abs (to_long_long f) + 1) * 2 ^ (- e))
  /\ (0 <= e -> Z.pos m * 2 ^ e < 2 ^ 63 ->
      if s then to_long_long f <= 0 else 0 <= to_long_long f)
  /\ (e < 0 -> Z.pos m < 2 ^ 63 * 2 ^ (- e) ->
      if s then to_long_long f <= 0 else 0 <= to_long_long f).
Proof.
  intros Hf. unfold to_long_long, LLONG_MIN. rewrite Hf. cbv zeta.
  assert (Hnonneg : 0 <= e ->
            (if 0 <=? e then Z.pos m * 2 ^ e else Z.pos m / 2 ^ (- e))
            = Z.pos m * 2 ^ e)
    by (intros; by replace (0 <=? e) with true by lia).
  assert (Hneg : e < 0 ->
            (if 0 <=? e then Z.pos m * 2 ^ e else Z.pos m / 2 ^ (- e))
            = Z.pos m / 2 ^ (- e))
    by (intros; by replace (0 <=? e) with false by lia).
  assert (Hfit : forall v : Z, 0 <= v < 2 ^ 63 ->
            (let v' := if s then - v else v in
             if (- 2 ^ 63 <=? v') && (v' <? 2 ^ 63) then v' else - 2 ^ 63)
            = if s then - v else v).
  { intros v Hv. cbv zeta.
    assert (Hin : - 2 ^ 63 <= (if s then - v else v) < 2 ^ 63)
      by (destruct s; lia).
    replace (- 2 ^ 63 <=? (if s then - v else v)) with true by lia.
    by replace ((if s then - v else v) <? 2 ^ 63) with true by lia. }
  assert (Hpow : 0 <= e -> 0 < 2 ^ e) by (intros; apply Z.pow_pos_nonneg; lia).
  assert (Hpow' : e < 0 -> 0 < 2 ^ (- e)) by (intros; apply Z.pow_pos_nonneg; lia).
  assert (Hq : e < 0 -> Z.pos m < 2 ^ 63 * 2 ^ (- e) ->
            0 <= Z.pos m / 2 ^ (- e) < 2 ^ 63).
  { intros He Hm. specialize (Hpow' He). split.
    - apply Z.div_pos; lia.
    - apply Z.div_lt_upper_bound; lia. }
  repeat split.
  - intros He Hm. rewrite (Hnonneg He), Hfit by (specialize (Hpow He); nia).
    specialize (Hpow He). destruct s; nia.
  - rewrite (Hneg H), Hfit by auto.
    destruct (Hq H H0) as [Hq0 _]. specialize (Hpow' H).
    replace (Z.abs (if s then - (Z.pos m / 2 ^ (- e)) else Z.pos m / 2 ^ (- e)))
      with (Z.pos m / 2 ^ (- e)) by (destruct s; lia).
    rewrite Z.mul_comm. apply Z.mul_div_le. exact Hpow'.
  - rewrite (Hneg H), Hfit by auto.
    destruct (Hq H H0) as [Hq0 _]. specialize (Hpow' H).
    replace (Z.abs (if s then - (Z.pos m / 2 ^ (- e)) else Z.pos m / 2 ^ (- e)))
      with (Z.pos m / 2 ^ (- e)) by (destruct s; lia).
    rewrite Z.mul_comm. apply Z.mul_succ_div_gt. exact Hpow'.
  - intros He Hm. rewrite (Hnonneg He), Hfit by (specialize (Hpow He); nia).
    specialize (Hpow He). destruct s; nia.
  - intros He Hm. rewrite (Hneg He), Hfit by auto.
    destruct (Hq He Hm) as [Hq0 _]. destruct s; lia.
Qed.

(** C8: [delta_us] is [1000000 * (now - prev)], computed in binary64
    arithmetic and converted to an integer by dropping the fraction.  The
    display starts with a line break if and only if [delta_us >= 200000]
    and a character has been seen; then come exactly 14 spaces when
    [delta_us >= 1000000], and otherwise [(DDD.DDD ms)  ] made of
    [delta_us / 1000] and [delta_us % 1000], which for a delta that is not
    negative is 14 characters wide too.  All of it goes to the diagnostic
    stream, and the value returned, the new previous timestamp, is [now] in
    every case. *)
Theorem output_elapsed_time_display (now prev : float) (seen : bool) (w : world) :
  let scaled := (1000000 * (now - prev))%float in
  let delta_us := to_long_long scaled in
  let r := output_elapsed_time now prev seen w in
  let break_first := 200000 <= delta_us /\ seen = true in
  let ms_text := "(" +:+ Fmt.dw 3 (Z.quot delta_us 1000) +:+ "."
                 +:+ Fmt.d0 3 (Z.rem delta_us 1000) +:+ " ms)  " in
  fst r = now
  /\ out (snd r) = out w
  /\ (break_first -> 1000000 <= delta_us ->
      err (snd r) = err w +:+ Fmt.nl +:+ "              ")
  /\ (break_first -> delta_us < 1000000 ->
      err (snd r) = err w +:+ Fmt.nl +:+ ms_text)
  /\ (~ break_first -> 1000000 <= delta_us ->
      err (snd r) = err w +:+ "              ")
  /\ (~ break_first -> delta_us < 1000000 ->
      err (snd r) = err w +:+ ms_text)
  /\ fourteen_spaces = "              "%string
  /\ String.length "              " = 14%nat
  /\ (0 <= delta_us < 1000000 -> String.length ms_text = 14%nat)
  /\ Prim2SF scaled
     = FloatAxioms.SF64mul (Prim2SF 1000000)
         (FloatAxioms.SF64sub (Prim2SF now) (Prim2SF prev))
  /\ (forall sign, Prim2SF scaled = S754_zero sign -> delta_us = 0)
  /\ (forall sign m e, Prim2SF scaled = S754_finite sign m e ->
      (0 <= e -> Z.pos m * 2 ^ e < 2 ^ 63 -> Z.abs delta_us = Z.pos m * 2 ^ e)
      /\ (e < 0 -> Z.pos m < 2 ^ 63 * 2 ^ (- e) ->
          Z.abs delta_us * 2 ^ (- e) <= Z.pos m < (Z.abs delta_us + 1) * 2 ^ (- e))
      /\ (0 <= e -> Z.pos m * 2 ^ e < 2 ^ 63 ->
          if sign then delta_us <= 0 else 0 <= delta_us)
      /\ (e < 0 -> Z.pos m < 2 ^ 63 * 2 ^ (- e) ->
          if sign then delta_us <= 0 else 0 <= delta_us)).
Proof.
  cbv zeta. rewrite output_elapsed_time_run. cbn [fst snd write_err out err].
  unfold elapsed_text, delta_tstamp_us, scaled_delta.
  change fourteen_spaces with "              "%string.
  change elapsed_ms_text with
    (fun d => "(" +:+ Fmt.dw 3 (Z.quot d 1000) +:+ "."
              +:+ Fmt.d0 3 (Z.rem d 1000) +:+ " ms)  "). cbv beta.
  split; [reflexivity|]. split; [reflexivity|].
  split; [|split; [|split; [|split; [|split; [|split; [|split; [|split; [|split]]]]]]]].
  - intros [H1 H2] H3. subst seen.
    replace (200000 <=? _) with true by lia. by replace (1000000 <=? _) with true by lia.
  - intros [H1 H2] H3. subst seen.
    replace (200000 <=? _) with true by lia. by replace (1000000 <=? _) with false by lia.
  - intros Hno H3. replace (1000000 <=? _) with true by lia.
    destruct (Z.leb_spec 200000 (to_long_long (1000000 * (now - prev))%float)), seen;
      cbn [andb]; try reflexivity.
    exfalso. apply Hno. by split.
  - intros Hno H3. replace (1000000 <=? _) with false by lia.
    destruct (Z.leb_spec 200000 (to_long_long (1000000 * (now - prev))%float)), seen;
      cbn [andb]; try reflexivity.
    exfalso. apply Hno. by split.
  - reflexivity.
  - reflexivity.
  - intros Hd. set (d := to_long_long _) in *. clearbody d.
    assert (Hq : 0 <= Z.quot d 1000 < 1000).
    { rewrite Z.quot_div_nonneg by lia.
      split; [apply Z.div_pos; lia|apply Z.div_lt_upper_bound; lia]. }
    assert (Hr : 0 <= Z.rem d 1000 < 1000).
    { rewrite Z.rem_mod_nonneg by lia. apply Z.mod_pos_bound. lia. }
    destruct (three_digit_fields _ Hq) as [Hq3 _].
    destruct (three_digit_fields _ Hr) as [_ Hr3].
    rewrite !length_cat, Hq3, Hr3. reflexivity.
  - rewrite FloatAxioms.mul_spec, FloatAxioms.sub_spec. reflexivity.
  - intros sign Hz. unfold to_long_long. by rewrite Hz.
  - intros sign m e Hfin. exact (to_long_long_truncates _ sign m e Hfin).
Qed.

(** A quarter of a second after a character: the line break, then the
    delta.  A second and a half: the line break, then the 14 spaces.
    1953.125 microseconds before any character: the fraction is dropped and
    the milliseconds are padded. *)
Lemma output_elapsed_time_display_witness :
  (to_long_long (1000000 * (10.5 - 10.25))%float = 250000
   /\ err (snd (output_elapsed_time 10.5 10.25 true initial_world))
      = String "010" "(250.000 ms)  ")
  /\ (to_long_long (1000000 * (1.5 - 0))%float = 1500000
      /\ err (snd (output_elapsed_time 1.5 0 true initial_world))
         = String "010" "              ")
  /\ (to_long_long (1000000 * (0.001953125 - 0))%float = 1953
      /\ err (snd (output_elapsed_time 0.001953125 0 false initial_world))
         = "(  1.953 ms)  "%string).
Proof.
  destruct (output_elapsed_time_display 10.5 10.25 true initial_world)
    as (_ & _ & _ & Hquarter & _).
  destruct (output_elapsed_time_display 1.5 0 true initial_world)
    as (_ & _ & Hstale & _).
  destruct (output_elapsed_time_display 0.001953125 0 false initial_world)
    as (_ & _ & _ & _ & _ & Hshort & _).
  split; [|split]; (split; [vm_compute; reflexivity|]).
  - refine (eq_trans (Hquarter _ _) _).
    + split; [vm_compute; discriminate|reflexivity].
    + vm_compute. reflexivity.
    + vm_compute. reflexivity.
  - refine (eq_trans (Hstale _ _) _).
    + split; [vm_compute; discriminate|reflexivity].
    + vm_compute. discriminate.
    + vm_compute. reflexivity.
  - refine (eq_trans (Hshort _ _) _).
    + intros [_ Hseen]. discriminate Hseen.
    + vm_compute. reflexivity.
    + vm_compute. reflexivity.
Defined.

(** A quarter of a second after a character: line break, then the delta;
    a second and a half: line break, then the 14 spaces. *)
Lemma output_elapsed_time_examples :
  delta_tstamp_us 10.5 10.25 = 250000
  /\ err (snd (output_elapsed_time 10.5 10.25 true initial_world))
     = Fmt.nl +:+ "(250.000 ms)  "
  /\ err (snd (output_elapsed_time 10.5 10.25 false initial_world))
     = "(250.000 ms)  "%string
  /\ delta_tstamp_us 1.5 0 = 1500000
  /\ err (snd (output_elapsed_time 1.5 0 true initial_world))
     = Fmt.nl +:+ "              "
  /\ err (snd (output_elapsed_time 1.5 0 false initial_world))
     = "              "%string.
Proof. repeat split; vm_compute; reflexivity. Qed.

(** ** Bind-Command Accumulator *)

Lemma symbols_cons (wc : Z) (cs : list Z) :
  symbols (wc :: cs) = char_to_symbol wc true +:+ symbols cs.
Proof. reflexivity. Qed.

Lemma symbols_app (cs ds : list Z) : symbols (cs ++ ds) = symbols cs +:+ symbols ds.
Proof.
  induction cs as [|c cs IH]; [reflexivity|].
  simpl app. rewrite !symbols_cons, IH. by rewrite cat_assoc.
Qed.

(** The loop writes the renderings of the [n] elements from index [i]. *)
Lemma output_bind_chars_writes (n : nat) :
  forall (i : nat) (cs : list Z) (w : world),
    (i + n <= length cs)%nat ->
    output_bind_chars n i cs w = (tt, write_out w (symbols (take n (drop i cs)))).
Proof.
  induction n as [|n IH]; intros i cs w Hlen.
  - simpl. by rewrite write_out_empty.
  - assert (Hi : (i < length cs)%nat) by lia.
    destruct (lookup_lt_is_Some_2 cs i Hi) as [x Hx].
    simpl. run. rewrite IH by lia.
    rewrite write_out_twice.
    rewrite (drop_S cs x i Hx), firstn_cons, symbols_cons.
    by rewrite (list_lookup_total_correct cs i x Hx).
Qed.

Lemma output_bind_command_run (cs : list Z) (w : world) :
  output_bind_command cs w = ([], write_out w (flush_text cs)).
Proof.
  unfold output_bind_command. destruct cs as [|c cs].
  - cbn. by rewrite write_out_empty.
  - change (0 <? length (c :: cs))%nat with true. cbv iota.
    run. rewrite output_bind_chars_writes by (simpl; lia).
    rewrite drop_0, firstn_all, !write_out_twice. reflexivity.
Qed.

(** No rendering of a code point holds a line break. *)
Lemma replicate_char_no_newline (n : nat) (c : Z) :
  count_newlines (Fmt.chr c) = 0%nat ->
  count_newlines (Fmt.replicate_char n c) = 0%nat.
Proof.
  intros Hc. induction n as [|n IH]; [reflexivity|].
  change (Fmt.replicate_char (S n) c) with (Fmt.chr c +:+ Fmt.replicate_char n c).
  by rewrite count_newlines_cat, Hc, IH.
Qed.

Lemma hex_digit_no_newline (d : Z) :
  0 <= d < 16 -> count_newlines (Fmt.hex_digit d) = 0%nat.
Proof.
  intros H. assert (Hd : exists n : nat, (n < 16)%nat /\ d = Z.of_nat n).
  { exists (Z.to_nat d). lia. }
  destruct Hd as (n & Hn & ->).
  do 16 (destruct n as [|n]; [reflexivity|]). lia.
Qed.

Lemma hex_upper_no_newline (fuel : nat) :
  forall (n : Z) (acc : string),
    count_newlines acc = 0%nat -> count_newlines (Fmt.hex_upper fuel n acc) = 0%nat.
Proof.
  induction fuel as [|fuel IH]; intros n acc Hacc; [exact Hacc|].
  assert (Hstep : count_newlines (Fmt.hex_digit (n mod 16) +:+ acc) = 0%nat).
  { rewrite count_newlines_cat, Hacc, hex_digit_no_newline; [done|].
    apply Z.mod_pos_bound. lia. }
  simpl. destruct (n / 16 =? 0); [exact Hstep|]. by apply IH.
Qed.

Lemma X0_no_newline (width : nat) (n : Z) : count_newlines (Fmt.X0 width n) = 0%nat.
Proof.
  unfold Fmt.X0, Fmt.pad_left, Fmt.X.
  rewrite count_newlines_cat, replicate_char_no_newline by reflexivity.
  by rewrite hex_upper_no_newline.
Qed.

Lemma char_to_symbol_no_newline (wc : Z) :
  0 <= wc -> count_newlines (char_to_symbol wc true) = 0%nat.
Proof.
  intros Hwc. destruct (Z.ltb_spec wc 128) as [Hlow|Hhigh].
  - assert (Hall : forallb (fun k : nat =>
              Nat.eqb (count_newlines (char_to_symbol (Z.of_nat k) true)) 0)
            (seq 0 128) = true) by (vm_compute; reflexivity).
    rewrite forallb_forall in Hall. specialize (Hall (Z.to_nat wc)).
    rewrite Z2Nat.id in Hall by lia.
    apply Nat.eqb_eq, Hall, in_seq. lia.
  - unfold char_to_symbol.
    replace (wc <? 32) with false by lia. replace (wc =? 32) with false by lia.
    replace (wc =? 127) with false by lia. replace (wc <? 128) with false by lia.
    cbv iota. destruct (wc <=? 65535); by rewrite count_newlines_cat, X0_no_newline.
Qed.

Lemma symbols_no_newline (cs : list Z) :
  Forall (fun wc => 0 <= wc) cs -> count_newlines (symbols cs) = 0%nat.
Proof.
  induction 1 as [|c cs Hc _ IH]; [reflexivity|].
  by rewrite symbols_cons, count_newlines_cat, char_to_symbol_no_newline, IH.
Qed.

(** C7: flushing a non-empty accumulator [cs] writes to the primary output
    exactly [bind ], the bind-friendly renderings of the code points of [cs]
    in order with no separator, [ 'do something'] and a newline, and leaves
    the accumulator empty; for code points (none negative) that text is one
    line, its only line break the last character.  Flushing the empty
    accumulator writes nothing and leaves the whole state as it was. *)
Theorem output_bind_command_flush (cs : list Z) (w : world) :
  (cs <> [] -> output_bind_command cs w = ([], write_out w (bind_line cs)))
  /\ (Forall (fun wc => 0 <= wc) cs -> count_newlines (bind_line cs) = 1%nat)
  /\ output_bind_command [] w = ([], w).
Proof.
  repeat split.
  - intros Hne. rewrite output_bind_command_run. by destruct cs.
  - intros Hcs. unfold bind_line.
    rewrite !count_newlines_cat, (symbols_no_newline cs Hcs). reflexivity.
Qed.

Lemma output_bind_command_flush_witness :
  output_bind_command [97; 32; 10] initial_world
  = ([], write_out initial_world (bind_line [97; 32; 10]))
  /\ bind_line [97; 32; 10] = ("bind a\x20\n 'do something'" +:+ Fmt.nl).
Proof.
  split; [|reflexivity].
  apply (proj1 (output_bind_command_flush [97; 32; 10] initial_world)).
  discriminate.
Defined.

(** ** Signal handler *)

(** C9: the handler clears [keep_running] exactly for SIGHUP, SIGTERM,
    SIGABRT and SIGSEGV; for every other signal number it leaves the flag as
    it found it.  In both cases the signal is reported on the primary output. *)
Theorem signal_handler_keep_running (P : platform) (signo : Z) (w : world) :
  let w' := snd (signal_handler P signo w) in
  (terminating_signal P signo -> keep_running w' = false)
  /\ (~ terminating_signal P signo -> keep_running w' = keep_running w)
  /\ out w' = out w +:+ signal_report P signo.
Proof.
  unfold terminating_signal, signal_handler, signal_report. run.
  destruct (Z.eqb_spec signo (SIGHUP P)), (Z.eqb_spec signo (SIGTERM P)),
    (Z.eqb_spec signo (SIGABRT P)), (Z.eqb_spec signo (SIGSEGV P));
    cbn [orb];
    destruct (sa_handler (old_sigactions P signo)),
      (sa_siginfo (old_sigactions P signo));
    cbn; repeat split; intros; tauto.
Qed.

Lemma signal_handler_keep_running_witness :
  keep_running (snd (signal_handler (plain_tty no_capabilities) 15 initial_world)) = false
  /\ keep_running (snd (signal_handler (plain_tty no_capabilities) 28 initial_world))
     = keep_running initial_world.
Proof.
  split.
  - apply (proj1 (signal_handler_keep_running (plain_tty no_capabilities) 15
                    initial_world)).
    right; left; reflexivity.
  - apply (proj1 (proj2 (signal_handler_keep_running (plain_tty no_capabilities) 28
                           initial_world))).
    intros [H|[H|[H|H]]]; discriminate H.
Defined.

Example signal_handler_samples :
  let P := plain_tty no_capabilities in
  keep_running (snd (signal_handler P 15 initial_world)) = false
  /\ keep_running (snd (signal_handler P 28 initial_world)) = true
  /\ out (snd (signal_handler P 15 initial_world))
     = "signal #15 (SIGTERM) received" +:+ Fmt.nl.
Proof. repeat split; reflexivity. Qed.

(** ** Session Loop *)

(** One turn on a character event, step by step. *)
Lemma loop_body_char (P : platform) (cm : bool) (t : tick) (l : locals) (w : world)
  (wc : Z) :
  next_event P t = Some wc ->
  let w1 := write_err w (elapsed_text (delta_tstamp_us (timef t) (prev_tstamp l))
                           (first_char_seen l)) in
  let w2 := write_err w1 ("hex: " +:+ Fmt.Xw 4 wc +:+ "  char: "
                          +:+ char_to_symbol wc false +:+ Fmt.nl) in
  let r8 := shifted8 (seq_recent_chars w) (narrow wc) in
  let hit := sequence_name_scan P 8 r8 in
  let w3 := set_window8 w2 r8 in
  let bc := bind_chars l ++ [wc] in
  let w4 := match hit with
            | Some name => write_out (write_out w3 (key_line name)) (flush_text bc)
            | None => w3
            end in
  let bc' := match hit with Some _ => [] | None => bc end in
  let r := should_exit P wc w4 in
  loop_body P cm t l w =
    if fst r
    then (Break, {| first_char_seen := first_char_seen l; prev_tstamp := timef t;
                    bind_chars := bc' |},
          write_err (snd r) (Fmt.nl +:+ "Exiting at your request." +:+ Fmt.nl))
    else (Continue, {| first_char_seen := true; prev_tstamp := timef t;
                       bind_chars := bc' |}, snd r).
Proof.
  intros Hevt. cbv zeta. unfold loop_body. rewrite Hevt.
  unfold output_info_about_char, output_matching_key_name, add_char_to_bind_command.
  run. rewrite output_elapsed_time_run, sequence_name_run.
  cbn [seq_recent_chars write_err].
  destruct (sequence_name_scan P 8 (shifted8 (seq_recent_chars w) (narrow wc)))
    as [name|].
  - rewrite output_bind_command_run.
    match goal with |- context [should_exit P wc ?w0] =>
      destruct (should_exit P wc w0) as [[|] wS] end; reflexivity.
  - match goal with |- context [should_exit P wc ?w0] =>
      destruct (should_exit P wc w0) as [[|] wS] end; reflexivity.
Qed.

(** One turn on an event that is not a character: flush, then [return] once
    a character has been seen outside the continuous mode. *)
Lemma loop_body_no_char (P : platform) (cm : bool) (t : tick) (l : locals) (w : world) :
  next_event P t = None ->
  loop_body P cm t l w =
    (if first_char_seen l && negb cm then Return else Continue,
     with_bind_chars l [], write_out w (flush_text (bind_chars l))).
Proof.
  intros Hevt. unfold loop_body. rewrite Hevt. run.
  rewrite output_bind_command_run. cbn [first_char_seen].
  destruct (first_char_seen l && negb cm); reflexivity.
Qed.

Lemma loop_body_match_out (P : platform) (cm : bool) (t : tick)
  (l : locals) (w : world) (wc : Z) (name : string) :
  next_event P t = Some wc ->
  fst (sequence_name P wc w) = Some name ->
  out (snd (loop_body P cm t l w))
  = out w +:+ key_line name +:+ bind_line (bind_chars l ++ [wc])
  /\ bind_chars (snd (fst (loop_body P cm t l w))) = [].
Proof.
  intros Hevt Hname.
  rewrite (loop_body_char P cm t l w wc Hevt). cbv zeta.
  rewrite sequence_name_run in Hname. cbn [fst] in Hname. rewrite Hname.
  match goal with |- context [should_exit P wc ?w0] =>
    destruct (should_exit_frame P wc w0) as (Hout & _);
    destruct (should_exit P wc w0) as [[|] wS] end;
    cbn [fst snd out write_err write_out set_window8 bind_chars] in *;
    rewrite Hout.
  all: split; [destruct (bind_chars l); rewrite cat_assoc; reflexivity|reflexivity].
Qed.

(** C10: on a character event the character joins the accumulator before the
    matcher is asked, so when the matcher names a capability the turn writes
    the line [bind -k <name> 'do something'] and right after it the flush of
    the accumulator, a [bind] line whose last symbol is that of this
    character; the accumulator is empty afterwards. *)
Theorem loop_body_match_then_flush (P : platform) (cm : bool) (t : tick)
  (l : locals) (w : world) (wc : Z) (name : string)
  (Hevt : next_event P t = Some wc)
  (Hname : fst (sequence_name P wc w) = Some name) :
  let r := loop_body P cm t l w in
  out (snd r)
  = out w +:+ "bind -k " +:+ name +:+ " 'do something'" +:+ Fmt.nl
    +:+ "bind " +:+ symbols (bind_chars l) +:+ char_to_symbol wc true
    +:+ " 'do something'" +:+ Fmt.nl
  /\ symbols (bind_chars l ++ [wc]) = symbols (bind_chars l) +:+ char_to_symbol wc true
  /\ bind_chars (snd (fst r)) = [].
Proof.
  cbv zeta.
  destruct (loop_body_match_out P cm t l w wc name Hevt Hname) as (Hout & Hempty).
  assert (Hsym : symbols (bind_chars l ++ [wc])
                 = symbols (bind_chars l) +:+ char_to_symbol wc true)
    by (rewrite symbols_app; cbn; by rewrite cat_empty_r).
  repeat split; [|exact Hsym|exact Hempty].
  rewrite Hout. unfold key_line, bind_line. rewrite Hsym.
  rewrite !cat_assoc. reflexivity.
Qed.

(** The cursor-up sequence ESC [ A, closed by its last byte. *)
Lemma loop_body_match_then_flush_witness :
  let P := plain_tty (lookup_capability [("kcuu1"%string, [27; 91; 65])]) in
  let w := set_window8 initial_world [0; 0; 0; 0; 0; 0; 27; 91] in
  let l := {| first_char_seen := true; prev_tstamp := 0%float;
              bind_chars := [27; 91] |} in
  let r := loop_body P true (key 65 0.125%float) l w in
  out (snd r) = ("bind -k kcuu1 'do something'" ++ String "010" EmptyString
                 ++ "bind \e\[A 'do something'" ++ String "010" EmptyString)%string
  /\ symbols ([27; 91] ++ [65]) = "\e\[A"%string
  /\ bind_chars (snd (fst r)) = [].
Proof.
  exact (loop_body_match_then_flush
           (plain_tty (lookup_capability [("kcuu1"%string, [27; 91; 65])])) true
           (key 65 0.125%float)
           {| first_char_seen := true; prev_tstamp := 0%float; bind_chars := [27; 91] |}
           (set_window8 initial_world [0; 0; 0; 0; 0; 0; 27; 91]) 65 "kcuu1"
           eq_refl eq_refl).
Defined.

Example loop_body_match_output :
  let P := plain_tty (lookup_capability [("kcuu1"%string, [27; 91; 65])]) in
  out (snd (process_input P true
              [key 27 5%float; key 91 5%float; key 65 5%float] initial_world))
  = "bind -k kcuu1 'do something'" +:+ Fmt.nl
    +:+ "bind \e\[A 'do something'" +:+ Fmt.nl.
Proof. vm_compute. reflexivity. Qed.

(** A turn leaves by [return] only after the flush of a non-character
    event. *)
Lemma loop_body_return_flushed (P : platform) (cm : bool) (t : tick) (l l' : locals)
  (w w' : world) :
  loop_body P cm t l w = (Return, l', w') -> bind_chars l' = [].
Proof.
  destruct (next_event P t) as [wc|] eqn:Hevt.
  - rewrite (loop_body_char P cm t l w wc Hevt). cbv zeta.
    destruct (fst (should_exit P wc _)); discriminate.
  - rewrite (loop_body_no_char P cm t l w Hevt).
    intros H. injection H as _ <- _. reflexivity.
Qed.

Lemma process_loop_stopped (P : platform) (cm : bool) (ticks : list tick) (l : locals)
  (w : world) :
  keep_running w = false -> process_loop P cm ticks l w = (Stopped, l, w).
Proof. intros Hk. destruct ticks; simpl; run; rewrite Hk; reflexivity. Qed.

Lemma process_loop_turn (P : platform) (cm : bool) (t : tick) (rest : list tick)
  (l : locals) (w : world) :
  keep_running w = true ->
  process_loop P cm (t :: rest) l w =
    match loop_body P cm t l (snd (deliver P (signals t) w)) with
    | (Continue, l', w') => process_loop P cm rest l' w'
    | (Break, l', w') => (Exited, l', w')
    | (Return, l', w') => (Returned, l', w')
    end.
Proof.
  intros Hk. simpl. run. rewrite Hk.
  destruct (deliver P (signals t) w) as [[] w1]. cbn [snd].
  destruct (loop_body P cm t l w1) as [[[| |] l'] w']; reflexivity.
Qed.

Lemma process_loop_returned_flushed (P : platform) (cm : bool) (ticks : list tick) :
  forall (l l' : locals) (w w' : world),
    process_loop P cm ticks l w = (Returned, l', w') -> bind_chars l' = [].
Proof.
  induction ticks as [|t rest IH]; intros l l' w w' Hrun.
  - simpl in Hrun. revert Hrun. run. destruct (keep_running w); discriminate.
  - destruct (keep_running w) eqn:Hk.
    + rewrite (process_loop_turn P cm t rest l w Hk) in Hrun.
      destruct (loop_body P cm t l (snd (deliver P (signals t) w)))
        as [[[| |] l1] w1] eqn:Hbody.
      * exact (IH _ _ _ _ Hrun).
      * discriminate.
      * injection Hrun as <- _. exact (loop_body_return_flushed _ _ _ _ _ _ _ Hbody).
    + rewrite (process_loop_stopped P cm _ l w Hk) in Hrun. discriminate.
Qed.

(** C3, as the code has it.  The loop flushes before it returns only when
    it returns on an event that is not a character: every run that ends so
    ends with the accumulator empty, that turn having written the pending
    [bind] line.  A loop left because [keep_running] is false writes nothing
    and leaves the accumulator as it is.  A loop left by [break] after the
    exit request makes no flush either: unless the matcher hit on that last
    character, the primary output is untouched and the accumulator still
    holds every pending character, the last one included. *)
Theorem process_loop_flush_on_leave (P : platform) (cm : bool) :
  (forall (ticks : list tick) (l l' : locals) (w w' : world),
      process_loop P cm ticks l w = (Returned, l', w') -> bind_chars l' = [])
  /\ (forall (t : tick) (l : locals) (w : world),
        next_event P t = None ->
        loop_body P cm t l w =
          (if first_char_seen l && negb cm then Return else Continue,
           with_bind_chars l [], write_out w (flush_text (bind_chars l))))
  /\ (forall (ticks : list tick) (l : locals) (w : world),
        keep_running w = false -> process_loop P cm ticks l w = (Stopped, l, w))
  /\ (forall (t : tick) (rest : list tick) (l l' : locals) (w w' : world),
        keep_running w = true ->
        loop_body P cm t l (snd (deliver P (signals t) w)) = (Break, l', w') ->
        process_loop P cm (t :: rest) l w = (Exited, l', w'))
  /\ (forall (t : tick) (l : locals) (w : world) (wc : Z),
        next_event P t = Some wc ->
        fst (should_exit P wc w) = true ->
        fst (sequence_name P wc w) = None ->
        exists (l' : locals) (w' : world),
          loop_body P cm t l w = (Break, l', w')
          /\ bind_chars l' = bind_chars l ++ [wc]
          /\ out w' = out w).
Proof.
  repeat split.
  - apply process_loop_returned_flushed.
  - apply loop_body_no_char.
  - apply process_loop_stopped.
  - intros t rest l l' w w' Hk Hbody.
    by rewrite (process_loop_turn P cm t rest l w Hk), Hbody.
  - intros t l w wc Hevt Hexit Hmiss.
    rewrite (loop_body_char P cm t l w wc Hevt). cbv zeta.
    rewrite sequence_name_run in Hmiss. cbn [fst] in Hmiss. rewrite Hmiss.
    match goal with |- context [should_exit P wc ?w0] =>
      rewrite (should_exit_answer_window P wc w0 w eq_refl), Hexit;
      destruct (should_exit_frame P wc w0) as (Hout & _)
    end.
    do 2 eexists. split; [reflexivity|]. split; [reflexivity|].
    cbn [out write_err]. rewrite Hout. reflexivity.
Qed.

(** C3, as stated, fails on the run e, x, i, t: the loop is left by the exit
    request with the four characters still in the accumulator and nothing on
    the primary output.  It fails as well when SIGTERM arrives while the
    loop waits for a character: the character is accumulated, the loop ends
    at its next test of [keep_running], and the only output is the signal
    report. *)
Lemma process_input_exit_leaves_accumulator :
  let P := plain_tty no_capabilities in
  let typed := process_input P true
                 [key 101 1%float; key 120 1.125%float; key 105 1.25%float;
                  key 116 1.375%float] initial_world in
  let killed := process_input P true
                  [{| signals := [15]; interrupted := false;
                      readch_timed := Some 97; timef := 1%float |}; pause]
                  initial_world in
  (fst (fst typed) = Exited
   /\ bind_chars (snd (fst typed)) = [101; 120; 105; 116]
   /\ out (snd typed) = EmptyString)
  /\ (fst (fst killed) = Stopped
      /\ bind_chars (snd (fst killed)) = [97]
      /\ out (snd killed) = "signal #15 (SIGTERM) received" +:+ Fmt.nl).
Proof. cbv zeta. repeat split; vm_compute; reflexivity. Qed.

Lemma process_loop_flush_on_leave_witness :
  exists (l' : locals) (w' : world),
    loop_body (plain_tty no_capabilities) true (key 116 1.375%float)
      {| first_char_seen := true; prev_tstamp := 1.25%float;
         bind_chars := [101; 120; 105] |}
      (set_window4 initial_world [0; 101; 120; 105]) = (Break, l', w')
    /\ bind_chars l' = [101; 120; 105] ++ [116]
    /\ out w' = out (set_window4 initial_world [0; 101; 120; 105]).
Proof.
  apply (proj2 (proj2 (proj2 (proj2
           (process_loop_flush_on_leave (plain_tty no_capabilities) true)))));
    reflexivity.
Defined.

Example process_input_pause_flushes :
  let P := plain_tty no_capabilities in
  let r := process_input P false [key 97 1%float; key 10 1.25%float; pause]
             initial_world in
  fst (fst r) = Returned
  /\ bind_chars (snd (fst r)) = []
  /\ out (snd r) = "bind a\n 'do something'" +:+ Fmt.nl.
Proof. cbv zeta. repeat split; vm_compute; reflexivity. Qed.

(** * Further properties *)

(** ** Symbol Formatter: hexadecimal fields *)

Lemma hex_value_from_cat (a b : string) :
  forall v : Z,
    hex_value_from v (a +:+ b)
    = match hex_value_from v a with
      | Some v' => hex_value_from v' b
      | None => None
      end.
Proof.
  unfold Fmt.cat. induction a as [|x a IH]; intros v; simpl; [reflexivity|].
  destruct (hex_digit_value x); [apply IH|reflexivity].
Qed.

Lemma hex_digit_round_trip (d : Z) :
  0 <= d < 16 ->
  String.length (Fmt.hex_digit d) = 1%nat
  /\ forall v : Z, hex_value_from v (Fmt.hex_digit d) = Some (16 * v + d).
Proof.
  intros H. assert (Hd : exists n : nat, (n < 16)%nat /\ d = Z.of_nat n).
  { exists (Z.to_nat d). lia. }
  destruct Hd as (n & Hn & ->).
  do 16 (destruct n as [|n]; [split; [reflexivity|intros v; cbn; f_equal; lia]|]).
  lia.
Qed.

(** The digits [hex_upper] puts in front of [acc]: as many as the number
    needs, at least one, and they read back as the number. *)
Lemma hex_upper_digits (fuel : nat) :
  forall (n : Z) (acc : string),
    0 <= n < 16 ^ Z.of_nat (S fuel) ->
    exists ds : string,
      Fmt.hex_upper (S fuel) n acc = ds +:+ acc
      /\ (1 <= String.length ds <= S fuel)%nat
      /\ (forall k : nat, (0 < k)%nat -> n < 16 ^ Z.of_nat k -> (String.length ds <= k)%nat)
      /\ forall v : Z,
           hex_value_from v ds = Some (v * 16 ^ Z.of_nat (String.length ds) + n).
Proof.
  assert (Hpow : forall k : nat, 16 ^ Z.of_nat (S k) = 16 * 16 ^ Z.of_nat k).
  { intros k. rewrite Nat2Z.inj_succ, Z.pow_succ_r by lia. reflexivity. }
  assert (Hsingle : forall (n : Z) (acc : string) (f : nat),
             0 <= n -> n / 16 = 0 ->
             exists ds : string,
               Fmt.hex_digit (n mod 16) +:+ acc = ds +:+ acc
               /\ (1 <= String.length ds <= S f)%nat
               /\ (forall k : nat, (0 < k)%nat -> n < 16 ^ Z.of_nat k ->
                     (String.length ds <= k)%nat)
               /\ forall v : Z,
                    hex_value_from v ds
                    = Some (v * 16 ^ Z.of_nat (String.length ds) + n)).
  { intros n acc f Hn Hq.
    assert (Hmod : 0 <= n mod 16 < 16) by (apply Z.mod_pos_bound; lia).
    destruct (hex_digit_round_trip _ Hmod) as [Hlen1 Hval1].
    assert (Hsmall : n mod 16 = n).
    { pose proof (Z.div_mod n 16 ltac:(lia)) as E. rewrite Hq in E. lia. }
    exists (Fmt.hex_digit (n mod 16)). rewrite Hlen1.
    repeat split; try lia.
    intros v. rewrite Hval1, Hsmall. f_equal. change (16 ^ Z.of_nat 1) with 16. lia. }
  induction fuel as [|fuel IH]; intros n acc Hn.
  - simpl Fmt.hex_upper.
    assert (Hq : n / 16 = 0) by (apply Z.div_small; change (16 ^ Z.of_nat 1) with 16 in Hn; lia).
    rewrite Hq. cbn [Z.eqb]. apply Hsingle; lia.
  - assert (Hmod : 0 <= n mod 16 < 16) by (apply Z.mod_pos_bound; lia).
    destruct (hex_digit_round_trip _ Hmod) as [Hlen1 Hval1].
    change (Fmt.hex_upper (S (S fuel)) n acc)
      with (let acc' := Fmt.hex_digit (n mod 16) +:+ acc in
            if n / 16 =? 0 then acc' else Fmt.hex_upper (S fuel) (n / 16) acc').
    cbv zeta. destruct (Z.eqb_spec (n / 16) 0) as [Hq|Hq].
    + apply Hsingle; lia.
    + assert (Hq' : 0 <= n / 16 < 16 ^ Z.of_nat (S fuel)).
      { split; [apply Z.div_pos; lia|].
        apply Z.div_lt_upper_bound; [lia|]. rewrite <- Hpow. lia. }
      destruct (IH (n / 16) (Fmt.hex_digit (n mod 16) +:+ acc) Hq')
        as (ds & Heq & Hlen & Hmin & Hval).
      exists (ds +:+ Fmt.hex_digit (n mod 16)).
      rewrite Heq, cat_assoc, length_cat, Hlen1.
      repeat split; try lia.
      * intros k Hk Hnk. destruct k as [|k]; [lia|].
        assert (Hk' : (0 < k)%nat).
        { destruct k; [|lia]. exfalso. apply Hq. apply Z.div_small.
          change (16 ^ Z.of_nat 1) with 16 in Hnk. lia. }
        assert (Hdiv : n / 16 < 16 ^ Z.of_nat k).
        { apply Z.div_lt_upper_bound; [lia|]. rewrite <- Hpow. lia. }
        specialize (Hmin k Hk' Hdiv). lia.
      * intros v. rewrite hex_value_from_cat, Hval, Hval1. f_equal.
        replace (Z.of_nat (String.length ds + 1)) with (Z.succ (Z.of_nat (String.length ds)))
          by lia.
        rewrite Z.pow_succ_r by lia.
        pose proof (Z.div_mod n 16 ltac:(lia)) as E.
        set (q := n / 16) in *. set (r := n mod 16) in *.
        set (p := 16 ^ Z.of_nat (String.length ds)) in *. lia.
Qed.

Lemma length_replicate_char (k : nat) (c : Z) :
  String.length (Fmt.replicate_char k c) = k.
Proof.
  induction k as [|k IH]; [reflexivity|].
  change (Fmt.replicate_char (S k) c) with (Fmt.chr c +:+ Fmt.replicate_char k c).
  rewrite length_cat, IH. reflexivity.
Qed.

Lemma hex_value_leading_zeros (k : nat) (s : string) :
  hex_value_from 0 (Fmt.replicate_char k 48 +:+ s) = hex_value_from 0 s.
Proof.
  induction k as [|k IH]; [reflexivity|].
  change (Fmt.replicate_char (S k) 48) with (Fmt.chr 48 +:+ Fmt.replicate_char k 48).
  rewrite cat_assoc. exact IH.
Qed.

(** [%X] of a non-negative 32-bit value: one to eight digits, no more than
    the value needs, reading back as the value. *)
Lemma X_digits (n : Z) :
  0 <= n < 2 ^ 32 ->
  (1 <= String.length (Fmt.X n) <= 8)%nat
  /\ (forall k : nat, (0 < k)%nat -> n < 16 ^ Z.of_nat k ->
        (String.length (Fmt.X n) <= k)%nat)
  /\ hex_value (Fmt.X n) = Some n.
Proof.
  intros Hn. unfold Fmt.X, hex_value. rewrite Z.mod_small by exact Hn.
  destruct (hex_upper_digits 7 n EmptyString) as (ds & Heq & Hlen & Hmin & Hval).
  { change (16 ^ Z.of_nat 8) with (2 ^ 32). exact Hn. }
  rewrite Heq, cat_empty_r. repeat split; try lia; [exact Hmin|].
  rewrite Hval. f_equal; lia.
Qed.

(** [%0kX] of a value that fits in [k] digits: exactly [k] digits. *)
Lemma X0_field (width : nat) (n : Z) :
  (0 < width)%nat -> 0 <= n < 2 ^ 32 -> n < 16 ^ Z.of_nat width ->
  String.length (Fmt.X0 width n) = width /\ hex_value (Fmt.X0 width n) = Some n.
Proof.
  intros Hw Hn Hfit. destruct (X_digits n Hn) as (Hlen & Hmin & Hval).
  specialize (Hmin width Hw Hfit).
  unfold Fmt.X0, Fmt.pad_left. split.
  - rewrite length_cat, length_replicate_char. lia.
  - unfold hex_value. rewrite hex_value_leading_zeros. exact Hval.
Qed.

Lemma length_X0_bound (width : nat) (n : Z) :
  (String.length (Fmt.X0 width n) <= Nat.max width 8)%nat.
Proof.
  assert (Hn : 0 <= n mod 2 ^ 32 < 2 ^ 32) by (apply Z.mod_pos_bound; lia).
  destruct (X_digits _ Hn) as (Hlen & _ & _).
  assert (HX : Fmt.X (n mod 2 ^ 32) = Fmt.X n).
  { unfold Fmt.X. by rewrite Z.mod_mod. }
  rewrite HX in Hlen.
  unfold Fmt.X0, Fmt.pad_left. rewrite length_cat, length_replicate_char. lia.
Qed.

(** X1: a code point from 0x80 to 0xFFFF renders, in both modes, as [\u]
    and exactly four uppercase hexadecimal digits that read back as the code
    point; one above 0xFFFF and below 0x1000000, which covers every Unicode
    code point, as [\U] and exactly six such digits. *)
Theorem char_to_symbol_unicode_round_trip (wc : Z) (bind_friendly : bool) :
  (128 <= wc <= 65535 ->
   exists ds : string,
     char_to_symbol wc bind_friendly = "\u" +:+ ds
     /\ String.length ds = 4%nat /\ hex_value ds = Some wc)
  /\ (65535 < wc < 16777216 ->
      exists ds : string,
        char_to_symbol wc bind_friendly = "\U" +:+ ds
        /\ String.length ds = 6%nat /\ hex_value ds = Some wc).
Proof.
  split; intros Hwc; unfold char_to_symbol;
    replace (wc <? 32) with false by lia; replace (wc =? 32) with false by lia;
    replace (wc =? 127) with false by lia; replace (wc <? 128) with false by lia.
  - replace (wc <=? 65535) with true by lia.
    exists (Fmt.X0 4 wc). split; [reflexivity|].
    apply X0_field; [lia|lia|]. change (16 ^ Z.of_nat 4) with 65536. lia.
  - replace (wc <=? 65535) with false by lia.
    exists (Fmt.X0 6 wc). split; [reflexivity|].
    apply X0_field; [lia|lia|]. change (16 ^ Z.of_nat 6) with 16777216. lia.
Qed.

Lemma char_to_symbol_unicode_round_trip_witness :
  (exists ds : string,
     char_to_symbol 233 true = "\u" +:+ ds
     /\ String.length ds = 4%nat /\ hex_value ds = Some 233)
  /\ exists ds : string,
       char_to_symbol 128512 true = "\U" +:+ ds
       /\ String.length ds = 6%nat /\ hex_value ds = Some 128512.
Proof.
  split.
  - apply (proj1 (char_to_symbol_unicode_round_trip 233 true)). lia.
  - apply (proj2 (char_to_symbol_unicode_round_trip 128512 true)). lia.
Defined.

(** X2: whatever the mode, the rendering of a wide character that is not
    negative has at most 19 characters, so it fits the 64-character static
    buffer of [char_to_symbol] and [swprintf] never cuts it. *)
Theorem char_to_symbol_fits_buffer (wc : Z) (bind_friendly : bool)
  (Hwc : 0 <= wc) :
  (String.length (char_to_symbol wc bind_friendly) <= 19)%nat
  /\ (String.length (char_to_symbol wc bind_friendly) < 64)%nat.
Proof.
  assert (H19 : (String.length (char_to_symbol wc bind_friendly) <= 19)%nat);
    [|split; [exact H19|lia]].
  destruct (Z.ltb_spec wc 128) as [Hlow|Hhigh].
  - assert (Hall : forallb (fun k : nat =>
              Nat.leb (String.length (char_to_symbol (Z.of_nat k) true)) 19
              && Nat.leb (String.length (char_to_symbol (Z.of_nat k) false)) 19)
            (seq 0 128) = true) by (vm_compute; reflexivity).
    rewrite forallb_forall in Hall. specialize (Hall (Z.to_nat wc)).
    rewrite Z2Nat.id in Hall by lia.
    assert (Hin : In (Z.to_nat wc) (seq 0 128)) by (apply in_seq; lia).
    apply Hall, andb_true_iff in Hin as [Ht Hf].
    apply Nat.leb_le in Ht, Hf. by destruct bind_friendly.
  - unfold char_to_symbol.
    replace (wc <? 32) with false by lia. replace (wc =? 32) with false by lia.
    replace (wc =? 127) with false by lia. replace (wc <? 128) with false by lia.
    cbv iota. destruct (wc <=? 65535); rewrite length_cat.
    + pose proof (length_X0_bound 4 wc). cbn in *. lia.
    + pose proof (length_X0_bound 6 wc). cbn in *. lia.
Qed.

(** The longest rendering, that of the space in the human mode. *)
Lemma char_to_symbol_fits_buffer_witness :
  (String.length (char_to_symbol 32 false) <= 19)%nat
  /\ (String.length (char_to_symbol 32 false) < 64)%nat.
Proof. exact (char_to_symbol_fits_buffer 32 false ltac:(lia)). Defined.

(** X3: a printable ASCII character other than the space renders as itself
    in the human mode; in the bind-friendly mode it gets a backslash in front
    exactly when it is one of the eighteen characters of [must_escape]. *)
Theorem char_to_symbol_printable (wc : Z) (Hwc : 32 < wc < 127) :
  char_to_symbol wc false = Fmt.chr wc
  /\ (In wc must_escape_chars -> char_to_symbol wc true = "\" +:+ Fmt.chr wc)
  /\ (~ In wc must_escape_chars -> char_to_symbol wc true = Fmt.chr wc).
Proof.
  unfold char_to_symbol, ascii_printable_to_symbol.
  replace (wc <? 32) with false by lia. replace (wc =? 32) with false by lia.
  replace (wc =? 127) with false by lia. replace (wc <? 128) with true by lia.
  assert (Hc : Fmt.c wc = Some (Fmt.chr wc)).
  { unfold Fmt.c. cbv zeta. rewrite Z.mod_small by lia.
    by replace (wc <? 128) with true by lia. }
  rewrite Hc. cbn [andb Fmt.printf].
  change (Fmt.cat (Fmt.chr wc) EmptyString) with (Fmt.chr wc).
  assert (Hesc : must_escape wc = true <-> In wc must_escape_chars).
  { unfold must_escape, wcschr. rewrite existsb_exists. split.
    - intros (x & Hin & Heq). apply Z.eqb_eq in Heq. subst x.
      apply in_app_or in Hin as [Hin|[H0|[]]]; [exact Hin|lia].
    - intros Hin. exists wc. split; [apply in_or_app; by left|apply Z.eqb_refl]. }
  repeat split.
  - intros Hin. apply Hesc in Hin. by rewrite Hin.
  - intros Hout. destruct (must_escape wc) eqn:E; [|reflexivity].
    exfalso. apply Hout, Hesc. reflexivity.
Qed.

Lemma char_to_symbol_printable_witness :
  char_to_symbol 36 false = Fmt.chr 36
  /\ (In 36 must_escape_chars -> char_to_symbol 36 true = "\" +:+ Fmt.chr 36)
  /\ (~ In 36 must_escape_chars -> char_to_symbol 36 true = Fmt.chr 36).
Proof. exact (char_to_symbol_printable 36 ltac:(lia)). Defined.

Lemma cat_two_chars (a b : ascii) (s t : string) :
  String a (String b EmptyString) +:+ s = String a (String b EmptyString) +:+ t -> s = t.
Proof. cbn. intros H. by injection H. Qed.

Lemma char_to_symbol_unicode_form (wc : Z) (m : bool) :
  128 <= wc ->
  char_to_symbol wc m
  = if wc <=? 65535 then "\u" +:+ Fmt.X0 4 wc else "\U" +:+ Fmt.X0 6 wc.
Proof.
  intros H. unfold char_to_symbol.
  replace (wc <? 32) with false by lia. replace (wc =? 32) with false by lia.
  replace (wc =? 127) with false by lia. by replace (wc <? 128) with false by lia.
Qed.

Lemma char_to_symbol_same_rendering (a b : Z) (m : bool) :
  0 <= a < 16777216 -> 0 <= b < 16777216 ->
  char_to_symbol a m = char_to_symbol b m -> a = b.
Proof.
  intros Ha Hb.
  assert (Hlow : forall x y : Z, 0 <= x < 128 -> 0 <= y < 128 ->
             char_to_symbol x m = char_to_symbol y m -> x = y).
  { intros x y Hx Hy Heq.
    assert (Hall : forall m' : bool, forallb (fun i : nat =>
               forallb (fun j : nat =>
                 implb (String.eqb (char_to_symbol (Z.of_nat i) m')
                          (char_to_symbol (Z.of_nat j) m'))
                   (Nat.eqb i j)) (seq 0 128)) (seq 0 128) = true)
      by (intros []; vm_compute; reflexivity).
    specialize (Hall m). rewrite forallb_forall in Hall.
    specialize (Hall (Z.to_nat x) ltac:(apply in_seq; lia)).
    rewrite forallb_forall in Hall.
    specialize (Hall (Z.to_nat y) ltac:(apply in_seq; lia)).
    rewrite !Z2Nat.id in Hall by lia.
    apply String.eqb_eq in Heq. rewrite Heq in Hall. cbn in Hall.
    apply Nat.eqb_eq in Hall. lia. }
  assert (Hmixed : forall x y : Z, 0 <= x < 128 -> 128 <= y ->
             char_to_symbol x m <> char_to_symbol y m).
  { intros x y Hx Hy Heq.
    assert (Hall : forall m' : bool, forallb (fun i : nat =>
               negb (starts_with_unicode_escape (char_to_symbol (Z.of_nat i) m')))
               (seq 0 128) = true)
      by (intros []; vm_compute; reflexivity).
    specialize (Hall m). rewrite forallb_forall in Hall.
    specialize (Hall (Z.to_nat x) ltac:(apply in_seq; lia)).
    rewrite Z2Nat.id, Heq, (char_to_symbol_unicode_form y m Hy) in Hall by lia.
    destruct (y <=? 65535); discriminate Hall. }
  destruct (Z.ltb_spec a 128) as [Ha'|Ha'], (Z.ltb_spec b 128) as [Hb'|Hb'].
  - apply Hlow; lia.
  - intros Heq. exfalso. apply (Hmixed a b); [lia|lia|exact Heq].
  - intros Heq. exfalso. apply (Hmixed b a); [lia|lia|by symmetry].
  - rewrite !char_to_symbol_unicode_form by lia.
    destruct (Z.leb_spec a 65535), (Z.leb_spec b 65535); intros Heq.
    + apply cat_two_chars, (f_equal hex_value) in Heq.
      destruct (X0_field 4 a) as [_ Hva]; [lia|lia|cbn; lia|].
      destruct (X0_field 4 b) as [_ Hvb]; [lia|lia|cbn; lia|]. congruence.
    + discriminate Heq.
    + discriminate Heq.
    + apply cat_two_chars, (f_equal hex_value) in Heq.
      destruct (X0_field 6 a) as [_ Hva]; [lia|lia|cbn; lia|].
      destruct (X0_field 6 b) as [_ Hvb]; [lia|lia|cbn; lia|]. congruence.
Qed.

(** X4: in either mode two different code points never share a rendering,
    so the symbol on a line names its character. *)
Theorem char_to_symbol_injective (a b : Z) (m : bool)
  (Ha : 0 <= a < 16777216) (Hb : 0 <= b < 16777216) (Hab : a <> b) :
  char_to_symbol a m <> char_to_symbol b m.
Proof.
  intros Heq. apply Hab. exact (char_to_symbol_same_rendering a b m Ha Hb Heq).
Qed.

Lemma char_to_symbol_injective_witness :
  char_to_symbol 7 true <> char_to_symbol 97 true.
Proof.
  exact (char_to_symbol_injective 7 97 true ltac:(lia) ltac:(lia) ltac:(lia)).
Defined.

(** ** Exit-Sequence Detector: the window and the answer *)

Lemma trailing_4_push (a b c d x : Z) (rest : list Z) :
  trailing 4 ([a; b; c; d] ++ x :: rest) = trailing 4 ([b; c; d; x] ++ rest).
Proof.
  unfold trailing. rewrite !length_app. cbn [length app].
  replace (4 + S (length rest) - 4)%nat with (S (length rest)) by lia.
  replace (4 + length rest - 4)%nat with (length rest) by lia.
  reflexivity.
Qed.

(** X5: the exit detector's window always holds four bytes, and after any
    run of calls it holds the last four of the bytes it held before followed
    by the narrowed characters it was given: one answer per character, the
    oldest byte dropped at each call. *)
Theorem should_exit_each_window (P : platform) (wcs : list Z) :
  forall w : world,
    length (exit_recent_chars w) = 4%nat ->
    let r := should_exit_each P wcs w in
    exit_recent_chars (snd r) = trailing 4 (exit_recent_chars w ++ map narrow wcs)
    /\ length (exit_recent_chars (snd r)) = 4%nat
    /\ length (fst r) = length wcs.
Proof.
  induction wcs as [|wc rest IH]; intros w Hlen; cbv zeta.
  - cbn. rewrite app_nil_r. unfold trailing. rewrite Hlen. by rewrite drop_0.
  - destruct (length_4_inv _ Hlen) as (a & b & c & d & Hr).
    rewrite should_exit_each_cons. cbn [fst snd map length].
    pose proof (should_exit_window P wc a b c d w Hr) as Hw1.
    assert (Hlen1 : length (exit_recent_chars (snd (should_exit P wc w))) = 4%nat)
      by (by rewrite Hw1).
    destruct (IH _ Hlen1) as (Hwin & Hlen' & Hans).
    rewrite Hwin, Hw1, Hr, trailing_4_push. repeat split; [|lia].
    rewrite <- Hw1, <- Hwin. exact Hlen'.
Qed.

Lemma should_exit_each_window_witness :
  let r := should_exit_each (plain_tty no_capabilities) [113; 233; 117] initial_world in
  exit_recent_chars (snd r)
  = trailing 4 (exit_recent_chars initial_world ++ map narrow [113; 233; 117])
  /\ length (exit_recent_chars (snd r)) = 4%nat
  /\ length (fst r) = length [113; 233; 117].
Proof.
  exact (should_exit_each_window (plain_tty no_capabilities) [113; 233; 117]
           initial_world eq_refl).
Defined.




(** X7: a wide character at or above 0x80 enters the window as the byte 0.
    With both special characters different from 0 it never makes
    [should_exit] answer true and nothing is printed for it; with the
    interrupt character set to 0 it counts as an interrupt press, and right
    after a zero byte, as at the start of a session, it makes the answer
    true. *)
Theorem should_exit_wide_character (P : platform) (wc : Z) (w : world)
  (Hlen : length (exit_recent_chars w) = 4%nat) (Hwide : 128 <= wc) :
  (c_cc_VINTR P <> 0 -> c_cc_VEOF P <> 0 ->
   fst (should_exit P wc w) = false /\ err (snd (should_exit P wc w)) = err w)
  /\ (c_cc_VINTR P = 0 -> exit_recent_chars w !!! 3%nat = 0 ->
      fst (should_exit P wc w) = true).
Proof.
  destruct (length_4_inv _ Hlen) as (a & b & c0 & d & Hr).
  assert (Hn : narrow wc = 0) by (unfold narrow; by replace (wc <? 128) with false by lia).
  rewrite (should_exit_on_window P wc a b c0 d w Hr), Hr, Hn. cbv zeta.
  cbn [lookup_total list_lookup_total].
  split.
  - intros Hi He.
    destruct (Z.eqb_spec 0 (c_cc_VINTR P)); [congruence|].
    destruct (Z.eqb_spec 0 (c_cc_VEOF P)); [congruence|].
    cbn [fst snd err set_window4]. split; [|reflexivity].
    apply orb_false_iff; split; apply bool_decide_eq_false; cbn; congruence.
  - intros Hi Hd. cbn in Hd. subst d. by rewrite Hi.
Qed.

Lemma should_exit_wide_character_witness :
  (c_cc_VINTR (plain_tty no_capabilities) <> 0 ->
   c_cc_VEOF (plain_tty no_capabilities) <> 0 ->
   fst (should_exit (plain_tty no_capabilities) 233 initial_world) = false
   /\ err (snd (should_exit (plain_tty no_capabilities) 233 initial_world))
      = err initial_world)
  /\ (c_cc_VINTR (plain_tty no_capabilities) = 0 ->
      exit_recent_chars initial_world !!! 3%nat = 0 ->
      fst (should_exit (plain_tty no_capabilities) 233 initial_world) = true).
Proof.
  exact (should_exit_wide_character (plain_tty no_capabilities) 233 initial_world
           eq_refl ltac:(lia)).
Defined.

(** ** Terminal-Sequence Matcher: the window *)

Lemma sequence_name_each_cons (P : platform) (wc : Z) (rest : list Z) (w : world) :
  sequence_name_each P (wc :: rest) w =
    (fst (sequence_name P wc w)
       :: fst (sequence_name_each P rest (snd (sequence_name P wc w))),
     snd (sequence_name_each P rest (snd (sequence_name P wc w)))).
Proof.
  cbn [sequence_name_each]. run. destruct (sequence_name P wc w) as [b w1].
  cbn [fst snd]. destruct (sequence_name_each P rest w1). reflexivity.
Qed.

Lemma trailing_8_snoc (l : list Z) (x : Z) :
  (8 <= length l)%nat -> trailing 8 (l ++ [x]) = drop 1 (trailing 8 l) ++ [x].
Proof.
  intros Hlen. unfold trailing. rewrite length_app. cbn [length].
  rewrite drop_drop, drop_app_le by lia.
  by replace (length l + 1 - 8)%nat with (length l - 8 + 1)%nat by lia.
Qed.

Lemma trailing_8_push (r : list Z) (x : Z) (rest : list Z) :
  length r = 8%nat ->
  trailing 8 (r ++ x :: rest) = trailing 8 ((drop 1 r ++ [x]) ++ rest).
Proof.
  intros Hlen. destruct (length_8_inv _ Hlen) as (a & b & c & d & e & f & g & h & ->).
  unfold trailing.
  assert (E1 : (length ([a; b; c; d; e; f; g; h] ++ x :: rest) - 8)%nat
               = S (length rest)) by (rewrite length_app; cbn; lia).
  assert (E2 : (length ((drop 1 [a; b; c; d; e; f; g; h] ++ [x]) ++ rest) - 8)%nat
               = length rest) by (rewrite length_app; cbn; lia).
  rewrite E1, E2. reflexivity.
Qed.

(** X8: the matcher's window always holds eight bytes: after any run of
    calls, the last eight of the bytes it held before followed by the
    narrowed characters it was given.  From the eighth character on, what it
    held at the start no longer matters, and each answer is the scan of the
    window as it then is. *)
Theorem sequence_name_each_window (P : platform) (wcs : list Z) :
  forall w : world,
    length (seq_recent_chars w) = 8%nat ->
    let w' := snd (sequence_name_each P wcs w) in
    seq_recent_chars w' = trailing 8 (seq_recent_chars w ++ map narrow wcs)
    /\ length (seq_recent_chars w') = 8%nat
    /\ ((8 <= length wcs)%nat -> seq_recent_chars w' = trailing 8 (map narrow wcs))
    /\ forall wc : Z,
         fst (sequence_name P wc w')
         = sequence_name_scan P 8
             (trailing 8 (seq_recent_chars w ++ map narrow (wcs ++ [wc]))).
Proof.
  assert (Hmain : forall w : world,
             length (seq_recent_chars w) = 8%nat ->
             seq_recent_chars (snd (sequence_name_each P wcs w))
             = trailing 8 (seq_recent_chars w ++ map narrow wcs)
             /\ length (seq_recent_chars (snd (sequence_name_each P wcs w))) = 8%nat).
  { induction wcs as [|wc rest IH]; intros w Hlen.
    - cbn. rewrite app_nil_r. unfold trailing. rewrite Hlen. by rewrite drop_0.
    - rewrite sequence_name_each_cons. cbn [fst snd map].
      assert (Hw1 : seq_recent_chars (snd (sequence_name P wc w))
                    = drop 1 (seq_recent_chars w) ++ [narrow wc]).
      { by rewrite (sequence_name_on_window P wc w Hlen). }
      assert (Hlen1 : length (seq_recent_chars (snd (sequence_name P wc w))) = 8%nat).
      { rewrite Hw1, length_app, length_drop, Hlen. reflexivity. }
      destruct (IH _ Hlen1) as (Hwin & Hlen').
      split; [|exact Hlen'].
      by rewrite Hwin, Hw1, (trailing_8_push _ _ _ Hlen). }
  intros w Hlen. cbv zeta. destruct (Hmain w Hlen) as (Hwin & Hlen').
  repeat split; [exact Hwin|exact Hlen'| |].
  - intros Hlong. rewrite Hwin. unfold trailing.
    replace (length (seq_recent_chars w ++ map narrow wcs) - 8)%nat
      with (length (seq_recent_chars w) + (length (map narrow wcs) - 8))%nat
      by (rewrite length_app, length_map; lia).
    apply drop_app_add.
  - intros wc. rewrite (sequence_name_on_window P wc _ Hlen'). cbv zeta. cbn [fst].
    rewrite Hwin, map_app, app_assoc. cbn [map].
    by rewrite trailing_8_snoc by (rewrite length_app, Hlen; lia).
Qed.

Lemma sequence_name_each_window_witness :
  let P := plain_tty (lookup_capability [("kcuu1"%string, [27; 91; 65])]) in
  let wcs := [97; 98; 99; 100; 101; 102; 27; 91] in
  let w' := snd (sequence_name_each P wcs initial_world) in
  seq_recent_chars w' = trailing 8 (seq_recent_chars initial_world ++ map narrow wcs)
  /\ length (seq_recent_chars w') = 8%nat
  /\ ((8 <= length wcs)%nat -> seq_recent_chars w' = trailing 8 (map narrow wcs))
  /\ forall wc : Z,
       fst (sequence_name P wc w')
       = sequence_name_scan P 8
           (trailing 8 (seq_recent_chars initial_world ++ map narrow (wcs ++ [wc]))).
Proof.
  exact (sequence_name_each_window
           (plain_tty (lookup_capability [("kcuu1"%string, [27; 91; 65])]))
           [97; 98; 99; 100; 101; 102; 27; 91] initial_world eq_refl).
Defined.

(** ** Signals: what the handler touches *)

Lemma signal_handler_run (P : platform) (signo : Z) (w : world) :
  signal_handler P signo w =
    (tt,
     let w1 := write_out w (signal_report P signo) in
     let w2 := if (signo =? SIGHUP P) || (signo =? SIGTERM P) || (signo =? SIGABRT P)
                  || (signo =? SIGSEGV P)
               then set_flag w1 false else w1 in
     match sa_handler (old_sigactions P signo) with
     | SIG_FN => log_chained w2 (signo, sa_siginfo (old_sigactions P signo))
     | _ => w2
     end).
Proof.
  unfold signal_handler, signal_report. run.
  destruct ((signo =? SIGHUP P) || (signo =? SIGTERM P) || (signo =? SIGABRT P)
            || (signo =? SIGSEGV P));
    destruct (sa_handler (old_sigactions P signo));
    try destruct (sa_siginfo (old_sigactions P signo)); reflexivity.
Qed.

Lemma terminating_signal_test (P : platform) (signo : Z) :
  (signo =? SIGHUP P) || (signo =? SIGTERM P) || (signo =? SIGABRT P)
  || (signo =? SIGSEGV P) = true
  <-> terminating_signal P signo.
Proof.
  unfold terminating_signal. rewrite !orb_true_iff, !Z.eqb_eq. tauto.
Qed.

(** X9: the handler passes the signal on to the handler installed before
    exactly when the saved disposition is neither ignore nor default, once,
    with the signal information if and only if that handler had asked for
    it; it never writes to the diagnostic stream and never touches the two
    byte windows. *)
Theorem signal_handler_chains (P : platform) (signo : Z) (w : world) :
  let w' := snd (signal_handler P signo w) in
  chained w'
  = chained w ++ match sa_handler (old_sigactions P signo) with
                 | SIG_FN => [(signo, sa_siginfo (old_sigactions P signo))]
                 | SIG_IGN | SIG_DFL => []
                 end
  /\ err w' = err w
  /\ exit_recent_chars w' = exit_recent_chars w
  /\ seq_recent_chars w' = seq_recent_chars w.
Proof.
  cbv zeta. rewrite signal_handler_run. cbn [snd].
  destruct ((signo =? SIGHUP P) || (signo =? SIGTERM P) || (signo =? SIGABRT P)
            || (signo =? SIGSEGV P));
    destruct (sa_handler (old_sigactions P signo)); cbn;
    rewrite ?app_nil_r; repeat split; reflexivity.
Qed.

Lemma deliver_cons (P : platform) (signo : Z) (rest : list Z) (w : world) :
  deliver P (signo :: rest) w = deliver P rest (snd (signal_handler P signo w)).
Proof. cbn [deliver]. run. by destruct (signal_handler P signo w) as [[] w1]. Qed.

Lemma signal_handler_flag (P : platform) (signo : Z) (w : world) :
  (terminating_signal P signo -> keep_running (snd (signal_handler P signo w)) = false)
  /\ (~ terminating_signal P signo ->
      keep_running (snd (signal_handler P signo w)) = keep_running w)
  /\ (keep_running w = false -> keep_running (snd (signal_handler P signo w)) = false).
Proof.
  rewrite signal_handler_run. cbn [snd].
  pose proof (terminating_signal_test P signo) as Ht.
  destruct ((signo =? SIGHUP P) || (signo =? SIGTERM P) || (signo =? SIGABRT P)
            || (signo =? SIGSEGV P));
    destruct (sa_handler (old_sigactions P signo)); cbn;
    repeat split; intros; try tauto; try reflexivity;
    exfalso; intuition congruence.
Qed.

Lemma signal_handler_frame (P : platform) (signo : Z) (w : world) :
  out (snd (signal_handler P signo w)) = out w +:+ signal_report P signo
  /\ err (snd (signal_handler P signo w)) = err w
  /\ exit_recent_chars (snd (signal_handler P signo w)) = exit_recent_chars w
  /\ seq_recent_chars (snd (signal_handler P signo w)) = seq_recent_chars w.
Proof.
  rewrite signal_handler_run. cbn [snd].
  destruct ((signo =? SIGHUP P) || (signo =? SIGTERM P) || (signo =? SIGABRT P)
            || (signo =? SIGSEGV P));
    destruct (sa_handler (old_sigactions P signo)); repeat split; reflexivity.
Qed.

(** What a list of signals does to the state. *)
Lemma deliver_effect (P : platform) (sigs : list Z) :
  forall w : world,
    out (snd (deliver P sigs w)) = out w +:+ concat_lines (map (signal_report P) sigs)
    /\ err (snd (deliver P sigs w)) = err w
    /\ exit_recent_chars (snd (deliver P sigs w)) = exit_recent_chars w
    /\ seq_recent_chars (snd (deliver P sigs w)) = seq_recent_chars w
    /\ (Forall (fun signo => ~ terminating_signal P signo) sigs ->
        keep_running (snd (deliver P sigs w)) = keep_running w)
    /\ (Exists (terminating_signal P) sigs ->
        keep_running (snd (deliver P sigs w)) = false)
    /\ (keep_running w = false -> keep_running (snd (deliver P sigs w)) = false).
Proof.
  induction sigs as [|signo rest IH]; intros w.
  - cbn. rewrite cat_empty_r. repeat split; try reflexivity; try tauto.
    intros H. inversion H.
  - rewrite deliver_cons.
    destruct (IH (snd (signal_handler P signo w)))
      as (Hout & Herr & Hw4 & Hw8 & Hquiet & Hstop & Hoff).
    destruct (signal_handler_flag P signo w) as (Hf1 & Hf2 & Hf3).
    destruct (signal_handler_frame P signo w) as (Gout & Gerr & Gw4 & Gw8).
    repeat split.
    + rewrite Hout, Gout. cbn [map concat_lines foldr]. by rewrite cat_assoc.
    + by rewrite Herr.
    + by rewrite Hw4.
    + by rewrite Hw8.
    + intros Hall. inversion Hall as [|? ? Hhd Htl]; subst.
      rewrite (Hquiet Htl). by apply Hf2.
    + intros Hex. inversion Hex as [? ? Hhd|? ? Htl]; subst.
      * apply Hoff. by apply Hf1.
      * by apply Hstop.
    + intros Hk. apply Hoff. by apply Hf3.
Qed.

(** ** Session Loop: one turn *)

Lemma should_exit_window_any (P : platform) (wc : Z) (w1 w2 : world) :
  exit_recent_chars w1 = exit_recent_chars w2 ->
  exit_recent_chars (snd (should_exit P wc w1))
  = exit_recent_chars (snd (should_exit P wc w2)).
Proof.
  intros Hr. unfold should_exit. run. rewrite Hr.
  repeat match goal with |- context [if ?x then _ else _] => destruct x end;
    reflexivity.
Qed.

Lemma should_exit_err_grows (P : platform) (wc : Z) (w : world) :
  exists s : string, err (snd (should_exit P wc w)) = err w +:+ s.
Proof.
  unfold should_exit. run.
  repeat match goal with |- context [if ?x then _ else _] => destruct x end;
    cbn [snd err write_err set_window4];
    first [ by exists EmptyString; rewrite cat_empty_r | by eexists ].
Qed.

(** What one turn does, field by field, in terms of the answers the matcher
    and the exit detector give in the state the turn starts in. *)
Lemma loop_body_summary (P : platform) (cm : bool) (t : tick) (l : locals) (w : world) :
  let r := loop_body P cm t l w in
  let hit := fun wc => fst (sequence_name P wc w) in
  fst (fst r)
  = match next_event P t with
    | None => if first_char_seen l && negb cm then Return else Continue
    | Some wc => if fst (should_exit P wc w) then Break else Continue
    end
  /\ bind_chars (snd (fst r))
     = match next_event P t with
       | None => []
       | Some wc => match hit wc with
                    | Some _ => []
                    | None => bind_chars l ++ [wc]
                    end
       end
  /\ first_char_seen (snd (fst r))
     = match next_event P t with
       | None => first_char_seen l
       | Some wc => if fst (should_exit P wc w) then first_char_seen l else true
       end
  /\ out (snd r)
     = out w +:+ match next_event P t with
                 | None => flush_text (bind_chars l)
                 | Some wc => match hit wc with
                              | Some name =>
                                  key_line name +:+ bind_line (bind_chars l ++ [wc])
                              | None => EmptyString
                              end
                 end
  /\ keep_running (snd r) = keep_running w
  /\ exit_recent_chars (snd r)
     = match next_event P t with
       | None => exit_recent_chars w
       | Some wc => exit_recent_chars (snd (should_exit P wc w))
       end
  /\ seq_recent_chars (snd r)
     = match next_event P t with
       | None => seq_recent_chars w
       | Some wc => seq_recent_chars (snd (sequence_name P wc w))
       end
  /\ exists s : string, err (snd r) = err w +:+ s.
Proof.
  cbv zeta. destruct (next_event P t) as [wc|] eqn:Hevt.
  - rewrite (loop_body_char P cm t l w wc Hevt). cbv zeta.
    rewrite sequence_name_run. cbn [fst snd seq_recent_chars set_window8].
    set (hit := sequence_name_scan P 8 (shifted8 (seq_recent_chars w) (narrow wc))).
    match goal with |- context [should_exit P wc ?w0] => set (w4 := w0) end.
    assert (Hans : fst (should_exit P wc w4) = fst (should_exit P wc w))
      by (apply should_exit_answer_window; subst w4; by destruct hit).
    assert (Hwin : exit_recent_chars (snd (should_exit P wc w4))
                   = exit_recent_chars (snd (should_exit P wc w)))
      by (apply should_exit_window_any; subst w4; by destruct hit).
    destruct (should_exit_frame P wc w4) as (Hout & Hkeep & Hseq).
    destruct (should_exit_err_grows P wc w4) as (s & Herr).
    assert (Hout4 : out w4 = out w +:+ match hit with
                                       | Some name =>
                                           key_line name +:+ bind_line (bind_chars l ++ [wc])
                                       | None => EmptyString
                                       end).
    { subst w4. destruct hit; cbn [out write_out write_err set_window8].
      - destruct (bind_chars l); by rewrite cat_assoc.
      - by rewrite cat_empty_r. }
    assert (Hkeep4 : keep_running w4 = keep_running w) by (subst w4; by destruct hit).
    assert (Hseq4 : seq_recent_chars w4 = shifted8 (seq_recent_chars w) (narrow wc))
      by (subst w4; by destruct hit).
    assert (Herr4 : exists s4 : string, err w4 = err w +:+ s4).
    { subst w4. destruct hit; cbn [err write_out write_err set_window8];
        rewrite cat_assoc; by eexists. }
    destruct Herr4 as (s4 & Herr4).
    rewrite <- Hans, <- Hwin.
    destruct (fst (should_exit P wc w4));
      cbn [fst snd bind_chars first_char_seen out err keep_running exit_recent_chars
             seq_recent_chars write_err];
      rewrite ?Hout, ?Hkeep, ?Hseq, ?Hout4, ?Hkeep4, ?Hseq4, ?Herr, ?Herr4;
      repeat split; try (by destruct hit); rewrite ?cat_assoc; by eexists.
  - rewrite (loop_body_no_char P cm t l w Hevt).
    cbn [fst snd with_bind_chars bind_chars first_char_seen out err keep_running
           exit_recent_chars seq_recent_chars write_out].
    repeat split. exists EmptyString. by rewrite cat_empty_r.
Qed.

(** ** Session Loop: whole runs *)

Lemma process_loop_nil (P : platform) (cm : bool) (l : locals) (w : world) :
  process_loop P cm [] l w
  = if keep_running w then (Pending, l, w) else (Stopped, l, w).
Proof. cbn. run. by destruct (keep_running w). Qed.

(** X10: a script run in two parts.  When the first part leaves the loop
    running, the second part goes on from the state it left; when the first
    part ends the loop, the second part is never looked at. *)
Theorem process_loop_app (P : platform) (cm : bool) (ts1 ts2 : list tick) :
  forall (l : locals) (w : world),
    process_loop P cm (ts1 ++ ts2) l w
    = match process_loop P cm ts1 l w with
      | (Pending, l', w') => process_loop P cm ts2 l' w'
      | r => r
      end.
Proof.
  induction ts1 as [|t ts1 IH]; intros l w.
  - rewrite process_loop_nil. cbn [app].
    destruct (keep_running w) eqn:Hk; [reflexivity|].
    by rewrite process_loop_stopped.
  - cbn [app]. destruct (keep_running w) eqn:Hk.
    + rewrite !(process_loop_turn P cm t _ l w Hk).
      destruct (loop_body P cm t l (snd (deliver P (signals t) w)))
        as [[[| |] l1] w1]; [apply IH|reflexivity|reflexivity].
    + by rewrite !process_loop_stopped.
Qed.

(** X11: only a terminating signal stops the loop on the flag.  From a
    state where [keep_running] holds, a script in which no SIGHUP, SIGTERM,
    SIGABRT or SIGSEGV arrives never ends as stopped and leaves the flag set:
    neither the exit detector nor any other step of a turn clears it. *)
Theorem process_loop_keeps_running (P : platform) (cm : bool) (ticks : list tick) :
  forall (l : locals) (w : world),
    keep_running w = true ->
    no_terminating_signal P ticks ->
    keep_running (snd (process_loop P cm ticks l w)) = true
    /\ fst (fst (process_loop P cm ticks l w)) <> Stopped.
Proof.
  induction ticks as [|t rest IH]; intros l w Hk Hquiet.
  - rewrite process_loop_nil, Hk. by split.
  - inversion Hquiet as [|? ? Ht Hrest]; subst.
    rewrite (process_loop_turn P cm t rest l w Hk).
    destruct (deliver_effect P (signals t) w) as (_ & _ & _ & _ & Hsame & _ & _).
    specialize (Hsame Ht).
    destruct (loop_body_summary P cm t l (snd (deliver P (signals t) w)))
      as (_ & _ & _ & _ & Hkeep & _).
    destruct (loop_body P cm t l (snd (deliver P (signals t) w)))
      as [[[| |] l1] w1]; cbn [fst snd] in *.
    + apply IH; [congruence|exact Hrest].
    + split; [congruence|discriminate].
    + split; [congruence|discriminate].
Qed.

Lemma process_loop_keeps_running_witness :
  keep_running (snd (process_loop (plain_tty no_capabilities) true
                       [{| signals := [28]; interrupted := false;
                           readch_timed := Some 97; timef := 1%float |}; pause]
                       {| first_char_seen := false; prev_tstamp := 0%float;
                          bind_chars := [] |} initial_world)) = true
  /\ fst (fst (process_loop (plain_tty no_capabilities) true
                 [{| signals := [28]; interrupted := false;
                     readch_timed := Some 97; timef := 1%float |}; pause]
                 {| first_char_seen := false; prev_tstamp := 0%float;
                    bind_chars := [] |} initial_world)) <> Stopped.
Proof.
  apply process_loop_keeps_running; [reflexivity|].
  repeat constructor; intros [H|[H|[H|H]]]; discriminate H.
Defined.

(** X12: a terminating signal that arrives during a turn ends the loop
    within that turn.  The event of the turn is still handled; if that does
    not leave the loop by itself, the next test of [keep_running] does, and
    no later event of the script is read. *)
Theorem process_loop_terminating_signal (P : platform) (cm : bool) (t : tick)
  (rest : list tick) (l : locals) (w : world)
  (Hk : keep_running w = true)
  (Hsig : Exists (terminating_signal P) (signals t)) :
  process_loop P cm (t :: rest) l w
  = match loop_body P cm t l (snd (deliver P (signals t) w)) with
    | (Continue, l', w') => (Stopped, l', w')
    | (Break, l', w') => (Exited, l', w')
    | (Return, l', w') => (Returned, l', w')
    end.
Proof.
  rewrite (process_loop_turn P cm t rest l w Hk).
  destruct (deliver_effect P (signals t) w) as (_ & _ & _ & _ & _ & Hstop & _).
  specialize (Hstop Hsig).
  destruct (loop_body_summary P cm t l (snd (deliver P (signals t) w)))
    as (_ & _ & _ & _ & Hkeep & _).
  destruct (loop_body P cm t l (snd (deliver P (signals t) w)))
    as [[[| |] l1] w1]; cbn [fst snd] in *; try reflexivity.
  apply process_loop_stopped. congruence.
Qed.

Lemma process_loop_terminating_signal_witness :
  process_loop (plain_tty no_capabilities) true
    [{| signals := [1]; interrupted := false; readch_timed := None;
        timef := 0%float |}; key 97 1%float]
    {| first_char_seen := true; prev_tstamp := 0%float; bind_chars := [120] |}
    initial_world
  = match loop_body (plain_tty no_capabilities) true
            {| signals := [1]; interrupted := false; readch_timed := None;
               timef := 0%float |}
            {| first_char_seen := true; prev_tstamp := 0%float; bind_chars := [120] |}
            (snd (deliver (plain_tty no_capabilities) [1] initial_world)) with
    | (Continue, l', w') => (Stopped, l', w')
    | (Break, l', w') => (Exited, l', w')
    | (Return, l', w') => (Returned, l', w')
    end.
Proof.
  apply process_loop_terminating_signal; [reflexivity|].
  constructor. left. reflexivity.
Defined.

Lemma should_exit_each_same_window (P : platform) (wcs : list Z) :
  forall w1 w2 : world,
    exit_recent_chars w1 = exit_recent_chars w2 ->
    fst (should_exit_each P wcs w1) = fst (should_exit_each P wcs w2)
    /\ exit_recent_chars (snd (should_exit_each P wcs w1))
       = exit_recent_chars (snd (should_exit_each P wcs w2)).
Proof.
  induction wcs as [|wc rest IH]; intros w1 w2 Hr; [by split|].
  rewrite !should_exit_each_cons. cbn [fst snd].
  rewrite (should_exit_answer_window P wc w1 w2 Hr).
  destruct (IH _ _ (should_exit_window_any P wc w1 w2 Hr)) as [Hans Hwin].
  by rewrite Hans, Hwin.
Qed.

Lemma typed_chars_cons (P : platform) (t : tick) (rest : list tick) (wc : Z) :
  next_event P t = Some wc -> typed_chars P (t :: rest) = wc :: typed_chars P rest.
Proof. intros H. unfold typed_chars. cbn. by rewrite H. Qed.

(** A script of character events during which no signal arrives: the loop
    goes through it as far as the first character on which the exit detector
    answers true. *)
Lemma process_loop_chars (P : platform) (cm : bool) (ticks : list tick) :
  forall (rest : list tick) (l : locals) (w : world),
    keep_running w = true ->
    no_signals ticks ->
    Forall (fun t => next_event P t <> None) ticks ->
    if existsb id (fst (should_exit_each P (typed_chars P ticks) w))
    then fst (fst (process_loop P cm (ticks ++ rest) l w)) = Exited
    else exists (l' : locals) (w' : world),
        process_loop P cm (ticks ++ rest) l w = process_loop P cm rest l' w'
        /\ keep_running w' = true
        /\ exit_recent_chars w'
           = exit_recent_chars (snd (should_exit_each P (typed_chars P ticks) w)).
Proof.
  induction ticks as [|t ticks IH]; intros rest l w Hk Hsig Hchar.
  - cbn. by exists l, w.
  - inversion Hsig as [|? ? Hs Hsig']; subst.
    inversion Hchar as [|? ? Hc Hchar']; subst.
    destruct (next_event P t) as [wc|] eqn:Hevt; [clear Hc|done].
    rewrite (typed_chars_cons P t ticks wc Hevt), should_exit_each_cons.
    cbn [fst snd existsb app id].
    rewrite (process_loop_turn P cm t _ l w Hk), Hs.
    change (snd (deliver P [] w)) with w.
    destruct (loop_body_summary P cm t l w)
      as (Hctl & _ & _ & _ & Hkeep & Hwin & _).
    rewrite Hevt in Hctl, Hwin.
    destruct (loop_body P cm t l w) as [[c l1] w1]. cbn [fst snd] in *.
    destruct (fst (should_exit P wc w)); subst c; cbn [orb]; [reflexivity|].
    destruct (should_exit_each_same_window P (typed_chars P ticks) _ _ Hwin)
      as [Hans Hwin'].
    rewrite <- Hans, <- Hwin'.
    apply IH; [congruence|exact Hsig'|exact Hchar'].
Qed.

(** X13: while characters come in and no signal arrives, the loop ends at
    the first character on which the exit detector answers true, and only
    there: the run ends by exit request if some answer in the run of
    [should_exit] over the characters is true, and is still running at the
    end of the script otherwise. *)
Theorem process_loop_exit_at_first_answer (P : platform) (cm : bool)
  (ticks : list tick) (l : locals) (w : world)
  (Hk : keep_running w = true)
  (Hsig : no_signals ticks)
  (Hchar : Forall (fun t => next_event P t <> None) ticks) :
  fst (fst (process_loop P cm ticks l w))
  = if existsb id (fst (should_exit_each P (typed_chars P ticks) w))
    then Exited else Pending.
Proof.
  pose proof (process_loop_chars P cm ticks [] l w Hk Hsig Hchar) as H.
  rewrite app_nil_r in H.
  destruct (existsb id (fst (should_exit_each P (typed_chars P ticks) w)));
    [exact H|].
  destruct H as (l' & w' & -> & Hk' & _).
  by rewrite process_loop_nil, Hk'.
Qed.

Lemma process_loop_exit_at_first_answer_witness :
  fst (fst (process_loop (plain_tty no_capabilities) true
              [key 113 1%float; key 117 1%float; key 105 1%float; key 116 1%float;
               key 97 1%float]
              {| first_char_seen := false; prev_tstamp := 0%float; bind_chars := [] |}
              initial_world))
  = if existsb id
         (fst (should_exit_each (plain_tty no_capabilities)
                 (typed_chars (plain_tty no_capabilities)
                    [key 113 1%float; key 117 1%float; key 105 1%float;
                     key 116 1%float; key 97 1%float]) initial_world))
    then Exited else Pending.
Proof.
  apply process_loop_exit_at_first_answer;
    [reflexivity|repeat constructor|repeat constructor; discriminate].
Defined.

Lemma should_exit_repeated_special (P : platform) (ch : Z) (w : world) :
  length (exit_recent_chars w) = 4%nat ->
  0 <= ch < 128 -> ch = c_cc_VINTR P \/ ch = c_cc_VEOF P ->
  fst (should_exit P ch (snd (should_exit P ch w))) = true.
Proof.
  intros Hlen Hrange Hch.
  destruct (length_4_inv _ Hlen) as (a & b & c & d & Hr).
  pose proof (should_exit_window P ch a b c d w Hr) as Hw1.
  rewrite (narrow_ascii ch Hrange) in Hw1.
  rewrite (should_exit_on_window P ch b c d ch _ Hw1). cbv zeta.
  rewrite (narrow_ascii ch Hrange).
  destruct Hch as [Hc|Hc]; rewrite <- !Hc, ?Z.eqb_refl; [reflexivity|].
  destruct (ch =? c_cc_VINTR P); reflexivity.
Qed.

(** X14: two interrupts latched one after the other end the session.  When
    [reader_test_and_clear_interrupted] answers true on two successive
    turns, the loop is left by exit request at the second at the latest,
    whatever the mode, the accumulator and the events still to come. *)
Theorem process_loop_double_interrupt (P : platform) (cm : bool) (t1 t2 : tick)
  (rest : list tick) (l : locals) (w : world)
  (Hk : keep_running w = true)
  (Hlen : length (exit_recent_chars w) = 4%nat)
  (Hintr : 0 <= c_cc_VINTR P < 128)
  (H1 : interrupted t1 = true /\ signals t1 = [])
  (H2 : interrupted t2 = true /\ signals t2 = []) :
  fst (fst (process_loop P cm (t1 :: t2 :: rest) l w)) = Exited.
Proof.
  destruct H1 as [Hi1 Hs1], H2 as [Hi2 Hs2].
  assert (He1 : next_event P t1 = Some (c_cc_VINTR P))
    by (unfold next_event; by rewrite Hi1).
  assert (He2 : next_event P t2 = Some (c_cc_VINTR P))
    by (unfold next_event; by rewrite Hi2).
  pose proof (process_loop_chars P cm [t1; t2] rest l w Hk) as H.
  rewrite (typed_chars_cons P t1 [t2] _ He1), (typed_chars_cons P t2 [] _ He2) in H.
  rewrite !should_exit_each_cons in H. cbn [fst snd existsb id should_exit_each] in H.
  rewrite (should_exit_repeated_special P _ w Hlen Hintr (or_introl eq_refl)) in H.
  rewrite orb_true_r in H. apply H.
  - by repeat constructor.
  - repeat constructor; congruence.
Qed.

Lemma process_loop_double_interrupt_witness :
  fst (fst (process_loop (plain_tty no_capabilities) true
              [{| signals := []; interrupted := true; readch_timed := None;
                  timef := 1%float |};
               {| signals := []; interrupted := true; readch_timed := Some 97;
                  timef := 2%float |}; pause]
              {| first_char_seen := false; prev_tstamp := 0%float; bind_chars := [] |}
              initial_world)) = Exited.
Proof.
  apply process_loop_double_interrupt;
    [reflexivity|reflexivity|cbn; lia|split; reflexivity|split; reflexivity].
Defined.



Lemma loop_body_break_farewell (P : platform) (cm : bool) (t : tick) (l l' : locals)
  (w w' : world) :
  loop_body P cm t l w = (Break, l', w') ->
  out w' = out w +:+ match next_event P t with
                     | Some wc =>
                         match fst (sequence_name P wc w) with
                         | Some name => key_line name +:+ bind_line (bind_chars l ++ [wc])
                         | None => EmptyString
                         end
                     | None => EmptyString
                     end
  /\ exists s : string, err w' = err w +:+ s +:+ farewell.
Proof.
  intros Hbody.
  destruct (loop_body_summary P cm t l w) as (Hctl & _ & _ & Hout & _).
  rewrite Hbody in Hctl, Hout. cbn [fst snd] in Hctl, Hout.
  destruct (next_event P t) as [wc|] eqn:Hevt.
  - split; [exact Hout|].
    rewrite (loop_body_char P cm t l w wc Hevt) in Hbody. cbv zeta in Hbody.
    match type of Hbody with context [should_exit P wc ?w0] =>
      set (w4 := w0) in * end.
    assert (Herr0 : exists s0 : string, err w4 = err w +:+ s0).
    { subst w4. destruct (sequence_name_scan P 8 _);
        cbn [err write_out write_err set_window8]; rewrite cat_assoc; by eexists. }
    destruct Herr0 as (s0 & Herr0).
    destruct (should_exit_err_grows P wc w4) as (s & Herr).
    clearbody w4.
    destruct (should_exit P wc w4) as [[|] wS]; cbn [fst snd] in *; [|discriminate].
    assert (Hw : w' = write_err wS farewell) by (unfold farewell; congruence).
    subst w'. cbn [err write_err].
    rewrite Herr, Herr0. exists (s0 +:+ s). by rewrite !cat_assoc.
  - destruct (first_char_seen l && negb cm); discriminate.
Qed.

(** X16: a run that ends by exit request ends its diagnostics with the
    farewell line, an empty line and [Exiting at your request.]: whatever
    else the run wrote to the diagnostic stream comes before it. *)
Theorem process_loop_exited_farewell (P : platform) (cm : bool) (ticks : list tick) :
  forall (l l' : locals) (w w' : world),
    process_loop P cm ticks l w = (Exited, l', w') ->
    exists s : string, err w' = err w +:+ s +:+ farewell.
Proof.
  induction ticks as [|t rest IH]; intros l l' w w' Hrun.
  - rewrite process_loop_nil in Hrun. destruct (keep_running w); discriminate.
  - destruct (keep_running w) eqn:Hk;
      [|rewrite (process_loop_stopped P cm _ l w Hk) in Hrun; discriminate].
    rewrite (process_loop_turn P cm t rest l w Hk) in Hrun.
    destruct (deliver_effect P (signals t) w) as (_ & Herr1 & _).
    destruct (loop_body P cm t l (snd (deliver P (signals t) w)))
      as [[[| |] l1] w1] eqn:Hbody.
    + destruct (loop_body_summary P cm t l (snd (deliver P (signals t) w)))
        as (_ & _ & _ & _ & _ & _ & _ & s1 & Hs1).
      rewrite Hbody in Hs1. cbn [snd] in Hs1.
      destruct (IH _ _ _ _ Hrun) as (s & Hs).
      exists (s1 +:+ s). by rewrite Hs, Hs1, Herr1, !cat_assoc.
    + injection Hrun as Hl Hw. subst l1 w1.
      destruct (loop_body_break_farewell _ _ _ _ _ _ _ Hbody) as (_ & s & Hs).
      exists s. by rewrite Hs, Herr1.
    + discriminate.
Qed.

Lemma process_loop_exited_farewell_witness :
  exists s : string,
    err (snd (process_loop (plain_tty no_capabilities) true
                [key 3 1%float; key 3 1.5%float]
                {| first_char_seen := false; prev_tstamp := 0%float;
                   bind_chars := [] |} initial_world))
    = err initial_world +:+ s +:+ farewell.
Proof.
  apply (process_loop_exited_farewell (plain_tty no_capabilities) true
           [key 3 1%float; key 3 1.5%float]
           {| first_char_seen := false; prev_tstamp := 0%float; bind_chars := [] |}
           (snd (fst (process_loop (plain_tty no_capabilities) true
                        [key 3 1%float; key 3 1.5%float]
                        {| first_char_seen := false; prev_tstamp := 0%float;
                           bind_chars := [] |} initial_world)))
           initial_world).
  vm_compute. reflexivity.
Defined.

Lemma sequence_name_scan_no_capability (P : platform) (r : list Z) :
  (forall seq : list Z, input_terminfo_get_name P seq = None) ->
  forall k : nat, sequence_name_scan P k r = None.
Proof.
  intros Hnone. induction k as [|k IH]; [reflexivity|].
  cbn [sequence_name_scan]. by rewrite Hnone.
Qed.

(** A burst of characters on a terminal without a matching capability, not
    ended by the exit detector: the characters gather in the accumulator
    and nothing reaches the primary output. *)
Lemma process_loop_burst (P : platform) (cm : bool) (ticks : list tick) :
  (forall seq : list Z, input_terminfo_get_name P seq = None) ->
  forall (rest : list tick) (l : locals) (w : world),
    keep_running w = true ->
    no_signals ticks ->
    Forall (fun t => next_event P t <> None) ticks ->
    fst (fst (process_loop P cm ticks l w)) = Pending ->
    exists (l' : locals) (w' : world),
      process_loop P cm (ticks ++ rest) l w = process_loop P cm rest l' w'
      /\ bind_chars l' = bind_chars l ++ typed_chars P ticks
      /\ out w' = out w
      /\ keep_running w' = true
      /\ first_char_seen l' = match ticks with
                              | [] => first_char_seen l
                              | _ :: _ => true
                              end.
Proof.
  intros Hnone. induction ticks as [|t ticks IH]; intros rest l w Hk Hsig Hchar Hpend.
  - exists l, w. cbn. rewrite app_nil_r. by repeat split.
  - inversion Hsig as [|? ? Hs Hsig']; subst.
    inversion Hchar as [|? ? Hc Hchar']; subst.
    destruct (next_event P t) as [wc|] eqn:Hevt; [clear Hc|done].
    rewrite (typed_chars_cons P t ticks wc Hevt).
    rewrite (process_loop_turn P cm t ticks l w Hk), Hs in Hpend.
    cbn [app]. rewrite (process_loop_turn P cm t _ l w Hk), Hs.
    change (snd (deliver P [] w)) with w in *.
    destruct (loop_body_summary P cm t l w)
      as (Hctl & Hbc & Hseen & Hout & Hkeep & _).
    rewrite Hevt in Hctl, Hbc, Hseen, Hout.
    rewrite sequence_name_run in Hbc, Hout. cbn [fst] in Hbc, Hout.
    rewrite (sequence_name_scan_no_capability P _ Hnone) in Hbc, Hout.
    rewrite cat_empty_r in Hout.
    destruct (loop_body P cm t l w) as [[[| |] l1] w1]; cbn [fst snd] in *;
      [|discriminate|discriminate].
    destruct (fst (should_exit P wc w)); [discriminate|].
    destruct (IH rest l1 w1) as (l' & w' & Hrun & Hbc' & Hout' & Hk' & Hseen');
      [congruence|exact Hsig'|exact Hchar'|exact Hpend|].
    exists l', w'. repeat split; [exact Hrun| |congruence|exact Hk'|].
    + rewrite Hbc', Hbc, <- app_assoc. reflexivity.
    + rewrite Hseen'. by destruct ticks.
Qed.

(** X17: a burst of keys and then a pause, in the single-shot mode.  When
    the terminal has no capability for what is typed, no signal arrives and
    the burst does not end the session by itself, the pause makes the loop
    return after one line on the primary output: [bind], the renderings
    of what the accumulator held followed by every typed character in
    order, and ['do something']. *)
Theorem process_loop_burst_then_pause (P : platform) (ticks : list tick) (p : tick)
  (rest : list tick) (l : locals) (w : world)
  (Hnone : forall seq : list Z, input_terminfo_get_name P seq = None)
  (Hk : keep_running w = true)
  (Hsig : no_signals (ticks ++ [p]))
  (Hchar : Forall (fun t => next_event P t <> None) ticks)
  (Hne : ticks <> [])
  (Hpause : next_event P p = None)
  (Hpend : fst (fst (process_loop P false ticks l w)) = Pending) :
  exists (l' : locals) (w' : world),
    process_loop P false (ticks ++ p :: rest) l w = (Returned, l', w')
    /\ bind_chars l' = []
    /\ out w' = out w +:+ bind_line (bind_chars l ++ typed_chars P ticks).
Proof.
  apply Forall_app in Hsig as [Hsig Hp]. inversion Hp as [|? ? Hp' _]; subst.
  destruct (process_loop_burst P false ticks Hnone (p :: rest) l w Hk Hsig Hchar Hpend)
    as (l1 & w1 & Hrun & Hbc & Hout & Hk1 & Hseen).
  rewrite Hrun, (process_loop_turn P false p rest l1 w1 Hk1), Hp'.
  change (snd (deliver P [] w1)) with w1.
  rewrite (loop_body_no_char P false p l1 w1 Hpause).
  assert (Hseen1 : first_char_seen l1 = true) by (by destruct ticks).
  rewrite Hseen1. cbn [andb negb].
  do 2 eexists. split; [reflexivity|]. split; [reflexivity|].
  cbn [out write_out]. rewrite Hout, Hbc.
  destruct ticks as [|t ticks']; [done|].
  inversion Hchar as [|? ? Hc _]; subst.
  destruct (next_event P t) as [wc|] eqn:Hevt; [|done].
  rewrite (typed_chars_cons P t ticks' wc Hevt).
  by destruct (bind_chars l).
Qed.

Lemma process_loop_burst_then_pause_witness :
  exists (l' : locals) (w' : world),
    process_loop (plain_tty no_capabilities) false
      ([key 27 1%float; key 91 1%float; key 65 1%float] ++ pause :: [key 97 9%float])
      {| first_char_seen := false; prev_tstamp := 0%float; bind_chars := [] |}
      initial_world = (Returned, l', w')
    /\ bind_chars l' = []
    /\ out w' = out initial_world
                +:+ bind_line ([] ++ typed_chars (plain_tty no_capabilities)
                                 [key 27 1%float; key 91 1%float; key 65 1%float]).
Proof.
  apply (process_loop_burst_then_pause (plain_tty no_capabilities)
           [key 27 1%float; key 91 1%float; key 65 1%float] pause [key 97 9%float]);
    [reflexivity|reflexivity|repeat constructor|repeat constructor; discriminate|
     discriminate|reflexivity|vm_compute; reflexivity].
Defined.

(** ** Session Loop: what reaches the two streams *)

Lemma concat_lines_app (a b : list string) :
  concat_lines (a ++ b) = concat_lines a +:+ concat_lines b.
Proof.
  induction a as [|x a IH]; [reflexivity|].
  cbn [app concat_lines foldr]. fold (concat_lines (a ++ b)) (concat_lines a).
  by rewrite IH, cat_assoc.
Qed.

Lemma loop_body_lines (P : platform) (cm : bool) (t : tick) (l : locals) (w : world) :
  exists lines : list string,
    out (snd (loop_body P cm t l w)) = out w +:+ concat_lines lines
    /\ Forall (stdout_line P) lines.
Proof.
  destruct (loop_body_summary P cm t l w) as (_ & _ & _ & Hout & _).
  rewrite Hout. destruct (next_event P t) as [wc|].
  - destruct (fst (sequence_name P wc w)) as [name|].
    + exists [key_line name; bind_line (bind_chars l ++ [wc])]. split.
      * cbn. by rewrite cat_empty_r.
      * repeat constructor. by destruct (bind_chars l).
    + by exists [].
  - destruct (bind_chars l) as [|c cs] eqn:Hbc.
    + by exists [].
    + exists [bind_line (c :: cs)]. split.
      * cbn. by rewrite cat_empty_r.
      * by repeat constructor.
Qed.

Lemma process_loop_streams (P : platform) (cm : bool) (ticks : list tick) :
  forall (l : locals) (w : world),
    exists (lines : list string) (s : string),
      out (snd (process_loop P cm ticks l w)) = out w +:+ concat_lines lines
      /\ Forall (stdout_line P) lines
      /\ err (snd (process_loop P cm ticks l w)) = err w +:+ s.
Proof.
  induction ticks as [|t rest IH]; intros l w.
  - exists [], EmptyString. rewrite process_loop_nil.
    destruct (keep_running w); cbn; by rewrite !cat_empty_r.
  - destruct (keep_running w) eqn:Hk.
    + rewrite (process_loop_turn P cm t rest l w Hk).
      destruct (deliver_effect P (signals t) w) as (Hout0 & Herr0 & _).
      destruct (loop_body_lines P cm t l (snd (deliver P (signals t) w)))
        as (lines1 & Hout1 & Hall1).
      destruct (loop_body_summary P cm t l (snd (deliver P (signals t) w)))
        as (_ & _ & _ & _ & _ & _ & _ & s1 & Herr1).
      assert (Hsig : Forall (stdout_line P) (map (signal_report P) (signals t))).
      { apply Forall_forall. intros x Hx. apply list_elem_of_In, in_map_iff in Hx.
        destruct Hx as (signo & <- & _). constructor. }
      destruct (loop_body P cm t l (snd (deliver P (signals t) w)))
        as [[[| |] l1] w1]; cbn [fst snd] in *.
      * destruct (IH l1 w1) as (lines & s & Hout & Hall & Herr).
        exists (map (signal_report P) (signals t) ++ lines1 ++ lines), (s1 +:+ s).
        rewrite Hout, Hout1, Hout0, Herr, Herr1, Herr0, !concat_lines_app, !cat_assoc.
        repeat split. by repeat apply Forall_app_2.
      * exists (map (signal_report P) (signals t) ++ lines1), s1.
        rewrite Hout1, Hout0, Herr1, Herr0, !concat_lines_app, !cat_assoc.
        repeat split. by apply Forall_app_2.
      * exists (map (signal_report P) (signals t) ++ lines1), s1.
        rewrite Hout1, Hout0, Herr1, Herr0, !concat_lines_app, !cat_assoc.
        repeat split. by apply Forall_app_2.
    + rewrite (process_loop_stopped P cm _ l w Hk).
      exists [], EmptyString. cbn. by rewrite !cat_empty_r.
Qed.

(** X18: what a session writes.  The primary output only ever gains whole
    lines of three kinds: the binding of a named key, the binding of a
    non-empty run of characters, the report of a signal.  The diagnostic
    stream only grows, and its first addition is the prompt [Press a key]
    followed by an empty line.  Nothing already written is changed. *)
Theorem process_input_streams (P : platform) (cm : bool) (ticks : list tick)
  (w : world) :
  exists (lines : list string) (s : string),
    out (snd (process_input P cm ticks w)) = out w +:+ concat_lines lines
    /\ Forall (stdout_line P) lines
    /\ err (snd (process_input P cm ticks w))
       = err w +:+ "Press a key" +:+ Fmt.nl +:+ Fmt.nl +:+ s.
Proof.
  unfold process_input. run.
  match goal with |- context [process_loop P cm ticks ?l0 ?w0] =>
    destruct (process_loop_streams P cm ticks l0 w0) as (lines & s & Hout & Hall & Herr)
  end.
  exists lines, s. rewrite Hout, Herr. cbn [out err write_err].
  repeat split; [exact Hall|]. by rewrite !cat_assoc.
Qed.

(** ** Session Loop: the single-shot rule *)

Lemma process_loop_returned_mode (P : platform) (cm : bool) (ticks : list tick) :
  forall (l l' : locals) (w w' : world),
    process_loop P cm ticks l w = (Returned, l', w') ->
    cm = false /\ first_char_seen l' = true.
Proof.
  induction ticks as [|t rest IH]; intros l l' w w' Hrun.
  - rewrite process_loop_nil in Hrun. destruct (keep_running w); discriminate.
  - destruct (keep_running w) eqn:Hk;
      [|rewrite (process_loop_stopped P cm _ l w Hk) in Hrun; discriminate].
    rewrite (process_loop_turn P cm t rest l w Hk) in Hrun.
    destruct (loop_body_summary P cm t l (snd (deliver P (signals t) w)))
      as (Hctl & _ & Hseen & _).
    destruct (loop_body P cm t l (snd (deliver P (signals t) w)))
      as [[[| |] l1] w1]; cbn [fst snd] in *.
    + exact (IH _ _ _ _ Hrun).
    + discriminate.
    + assert (l' = l1) by congruence. subst l'.
      destruct (next_event P t) as [wc|].
      * destruct (fst (should_exit P wc _)); discriminate.
      * destruct (first_char_seen l) eqn:Hs, cm; cbn in Hctl; try discriminate.
        by split.
Qed.

(** X19: the single-shot rule.  The loop returns on a pause only outside
    the continuous mode and only once a character has been seen, so in the
    continuous mode no run ever ends that way.  A pause that finds the
    accumulator empty, in the continuous mode or before the first
    character, with no signal arriving, changes nothing at all: the loop
    goes on as if the pause had not been there. *)
Theorem process_loop_single_shot_rule (P : platform) (cm : bool) :
  (forall (ticks : list tick) (l l' : locals) (w w' : world),
      process_loop P cm ticks l w = (Returned, l', w') ->
      cm = false /\ first_char_seen l' = true)
  /\ (forall (t : tick) (rest : list tick) (l : locals) (w : world),
        keep_running w = true ->
        signals t = [] -> next_event P t = None -> bind_chars l = [] ->
        cm = true \/ first_char_seen l = false ->
        process_loop P cm (t :: rest) l w = process_loop P cm rest l w).
Proof.
  split; [apply process_loop_returned_mode|].
  intros t rest l w Hk Hs Hevt Hbc Hmode.
  rewrite (process_loop_turn P cm t rest l w Hk), Hs.
  change (snd (deliver P [] w)) with w.
  rewrite (loop_body_no_char P cm t l w Hevt), Hbc.
  cbn [flush_text]. rewrite write_out_empty.
  assert (Hl : with_bind_chars l [] = l).
  { destruct l. cbn in Hbc. subst. reflexivity. }
  rewrite Hl.
  assert (Hc : first_char_seen l && negb cm = false).
  { destruct Hmode as [-> | ->]; [apply andb_false_r|reflexivity]. }
  by rewrite Hc.
Qed.

Lemma process_loop_single_shot_rule_witness :
  process_loop (plain_tty no_capabilities) false (pause :: [key 97 1%float; pause])
    {| first_char_seen := false; prev_tstamp := 0%float; bind_chars := [] |}
    initial_world
  = process_loop (plain_tty no_capabilities) false [key 97 1%float; pause]
      {| first_char_seen := false; prev_tstamp := 0%float; bind_chars := [] |}
      initial_world.
Proof.
  apply (proj2 (process_loop_single_shot_rule (plain_tty no_capabilities) false));
    [reflexivity|reflexivity|reflexivity|reflexivity|by right].
Defined.

(** ** Installing the handler *)

Section Install.

Variable sys_sigaction : Z -> option saved_sigaction.
Variable SA_SIGINFO : Z.
Hypothesis SA_SIGINFO_flag : 0 <= SA_SIGINFO.

Lemma install_loop_table (n : nat) :
  forall (signo : Z) (table : list saved_sigaction) (log : list debug_message),
    0 <= signo ->
    (Z.to_nat signo + n <= length table)%nat ->
    let table' := fst (install_loop sys_sigaction SA_SIGINFO n signo table log) in
    length table' = length table
    /\ forall i : nat,
         table' !! i
         = if (Z.to_nat signo <=? i)%nat && (i <? Z.to_nat signo + n)%nat
           then match sys_sigaction (Z.of_nat i) with
                | Some old_sa => Some old_sa
                | None => table !! i
                end
           else table !! i.
Proof.
  induction n as [|n IH]; intros signo table log Hpos Hfit; cbv zeta.
  - cbn [install_loop fst]. split; [reflexivity|]. intros i.
    replace ((Z.to_nat signo <=? i)%nat && (i <? Z.to_nat signo + 0)%nat)
      with false; [reflexivity|].
    symmetry. apply andb_false_iff.
    destruct (Nat.leb_spec (Z.to_nat signo) i); [right; apply Nat.ltb_ge; lia|by left].
  - cbn [install_loop].
    assert (Hnext : Z.to_nat (signo + 1) = S (Z.to_nat signo)) by lia.
    destruct (sys_sigaction signo) as [old_sa|] eqn:Hsys.
    + match goal with |- context [install_loop _ _ n (signo + 1) ?t ?g] =>
        destruct (IH (signo + 1) t g) as (Hlen & Hget);
        [lia|rewrite length_insert; lia|]
      end.
      rewrite length_insert in Hlen. split; [exact Hlen|].
      intros i. rewrite Hget, Hnext.
      destruct (decide (i = Z.to_nat signo)) as [->|Hne].
      * rewrite Z2Nat.id, Hsys by lia.
        rewrite list_lookup_insert_eq by lia.
        replace (S (Z.to_nat signo) <=? Z.to_nat signo)%nat with false
          by (symmetry; apply Nat.leb_gt; lia).
        replace (Z.to_nat signo <=? Z.to_nat signo)%nat with true
          by (symmetry; apply Nat.leb_le; lia).
        replace (Z.to_nat signo <? Z.to_nat signo + S n)%nat with true
          by (symmetry; apply Nat.ltb_lt; lia).
        reflexivity.
      * rewrite list_lookup_insert_ne by lia.
        destruct (Nat.leb_spec (S (Z.to_nat signo)) i),
          (Nat.leb_spec (Z.to_nat signo) i),
          (Nat.ltb_spec i (S (Z.to_nat signo) + n)),
          (Nat.ltb_spec i (Z.to_nat signo + S n)); try lia; reflexivity.
    + destruct (IH (signo + 1) table log) as (Hlen & Hget); [lia|lia|].
      split; [exact Hlen|].
      intros i. rewrite Hget, Hnext.
      destruct (decide (i = Z.to_nat signo)) as [->|Hne].
      * rewrite Z2Nat.id, Hsys by lia.
        replace (S (Z.to_nat signo) <=? Z.to_nat signo)%nat with false
          by (symmetry; apply Nat.leb_gt; lia).
        replace (Z.to_nat signo <=? Z.to_nat signo)%nat with true
          by (symmetry; apply Nat.leb_le; lia).
        replace (Z.to_nat signo <? Z.to_nat signo + S n)%nat with true
          by (symmetry; apply Nat.ltb_lt; lia).
        reflexivity.
      * destruct (Nat.leb_spec (S (Z.to_nat signo)) i),
          (Nat.leb_spec (Z.to_nat signo) i),
          (Nat.ltb_spec i (S (Z.to_nat signo) + n)),
          (Nat.ltb_spec i (Z.to_nat signo + S n)); try lia; reflexivity.
Qed.

Lemma install_loop_log (n : nat) :
  forall (signo : Z) (table : list saved_sigaction) (log : list debug_message)
         (m : debug_message),
    In m (snd (install_loop sys_sigaction SA_SIGINFO n signo table log))
    <-> In m log
        \/ exists k : Z, signo <= k < signo + Z.of_nat n
                         /\ debug_logged sys_sigaction k m.
Proof.
  unfold debug_logged.
  assert (Hnot : negb (Z.lnot SA_SIGINFO =? 0) = true).
  { apply negb_true_iff, Z.eqb_neq. unfold Z.lnot. lia. }
  induction n as [|n IH]; intros signo table log m.
  - cbn [install_loop snd]. split; [by left|].
    intros [H|(k & Hk & _)]; [exact H|lia].
  - cbn [install_loop]. destruct (sys_sigaction signo) as [old_sa|] eqn:Hsys.
    + rewrite IH, Hnot, andb_true_r. split.
      * intros [Hin|(k & Hk & Hm)].
        -- destruct (saved_flags old_sa =? 0) eqn:Hf; cbn [negb] in Hin.
           ++ destruct (saved_handler old_sa) eqn:Hh;
                try (by left).
              apply in_app_or in Hin as [Hin|[<-|[]]]; [by left|].
              right. exists signo. split; [lia|]. exists old_sa. split; [done|].
              left. by split.
           ++ apply in_app_or in Hin as [Hin|[<-|[]]].
              ** destruct (saved_handler old_sa) eqn:Hh; try (by left).
                 apply in_app_or in Hin as [Hin|[<-|[]]]; [by left|].
                 right. exists signo. split; [lia|]. exists old_sa. split; [done|].
                 left. by split.
              ** right. exists signo. split; [lia|]. exists old_sa. split; [done|].
                 right. split; [done|]. by apply Z.eqb_neq.
        -- right. exists k. split; [lia|exact Hm].
      * intros [Hin|(k & Hk & Hm)].
        -- left. destruct (negb (saved_flags old_sa =? 0));
             destruct (saved_handler old_sa); repeat (apply in_or_app; left); exact Hin.
        -- destruct (decide (k = signo)) as [->|Hne].
           ++ left. destruct Hm as (old' & Hsys' & Hm).
              rewrite Hsys in Hsys'. injection Hsys' as <-.
              destruct Hm as [[-> Hh]|[-> Hf]].
              ** rewrite Hh. destruct (negb (saved_flags old_sa =? 0));
                   [apply in_or_app; left|]; apply in_or_app; right; by left.
              ** apply Z.eqb_neq in Hf. rewrite Hf. cbn [negb].
                 apply in_or_app; right; by left.
           ++ right. exists k. split; [lia|exact Hm].
    + rewrite IH. split.
      * intros [Hin|(k & Hk & Hm)]; [by left|].
        right. exists k. split; [lia|exact Hm].
      * intros [Hin|(k & Hk & Hm)]; [by left|].
        destruct (decide (k = signo)) as [->|Hne].
        -- destruct Hm as (old' & Hsys' & _). congruence.
        -- right. exists k. split; [lia|exact Hm].
Qed.

End Install.

(** X20: what [install_our_signal_handlers] leaves in [old_sigactions].
    The table keeps its 32 entries; entry 0 is never written; the entry of
    each signal from 1 to 31 holds the earlier disposition when [sigaction]
    succeeded for that signal and is left as it was when it failed.  The
    flags message goes to [debug] for every signal saved with [sa_flags]
    other than 0, also when SA_SIGINFO is the only flag set, and the
    was-ignored message for every signal saved with the ignore handler;
    nothing else is logged. *)
Theorem install_our_signal_handlers_saves
  (sys_sigaction : Z -> option saved_sigaction) (SA_SIGINFO : Z)
  (table : list saved_sigaction)
  (Hflag : 0 <= SA_SIGINFO) (Hlen : length table = 32%nat) :
  let r := install_our_signal_handlers sys_sigaction SA_SIGINFO table in
  length (fst r) = 32%nat
  /\ fst r !! 0%nat = table !! 0%nat
  /\ (forall signo : Z, 1 <= signo < 32 ->
        fst r !! Z.to_nat signo
        = match sys_sigaction signo with
          | Some old_sa => Some old_sa
          | None => table !! Z.to_nat signo
          end)
  /\ (forall m : debug_message,
        In m (snd r) <-> exists signo : Z, 1 <= signo < 32
                                           /\ debug_logged sys_sigaction signo m).
Proof.
  cbv zeta. unfold install_our_signal_handlers.
  destruct (install_loop_table sys_sigaction SA_SIGINFO 31 1 table [])
    as (Hlen' & Hget); [lia|rewrite Hlen; cbn; lia|].
  repeat split.
  - by rewrite Hlen'.
  - by rewrite Hget.
  - intros signo Hs. rewrite Hget.
    replace (Z.to_nat 1 <=? Z.to_nat signo)%nat with true
      by (symmetry; apply Nat.leb_le; lia).
    replace (Z.to_nat signo <? Z.to_nat 1 + 31)%nat with true
      by (symmetry; apply Nat.ltb_lt; lia).
    cbn [andb]. by rewrite Z2Nat.id by lia.
  - rewrite (install_loop_log sys_sigaction SA_SIGINFO Hflag).
    intros [[]|(k & Hk & Hm)]. exists k. split; [lia|exact Hm].
  - rewrite (install_loop_log sys_sigaction SA_SIGINFO Hflag).
    intros (k & Hk & Hm). right. exists k. split; [lia|exact Hm].
Qed.

Lemma install_our_signal_handlers_saves_witness :
  let table := replicate 32 zero_sigaction in
  let r := install_our_signal_handlers sample_sigaction 4 table in
  length (fst r) = 32%nat
  /\ fst r !! 0%nat = table !! 0%nat
  /\ (forall signo : Z, 1 <= signo < 32 ->
        fst r !! Z.to_nat signo
        = match sample_sigaction signo with
          | Some old_sa => Some old_sa
          | None => table !! Z.to_nat signo
          end)
  /\ (forall m : debug_message,
        In m (snd r) <-> exists signo : Z, 1 <= signo < 32
                                           /\ debug_logged sample_sigaction signo m).
Proof.
  exact (install_our_signal_handlers_saves sample_sigaction 4
           (replicate 32 zero_sigaction) ltac:(lia) eq_refl).
Defined.

Example install_our_signal_handlers_sample :
  snd (install_our_signal_handlers sample_sigaction 4 (replicate 32 zero_sigaction))
  = [Debug_had_flags 2 4; Debug_was_ignored 13].
Proof. reflexivity. Qed.

(** X21: installation and handler together.  Once the table is the one
    [install_our_signal_handlers] has filled, a signal from 1 to 31 whose
    earlier disposition was a handler function is passed on to it by
    [signal_handler], with the signal information exactly when the earlier
    flags had the SA_SIGINFO bit; a signal that was ignored or at its
    default is not passed on. *)
Theorem signal_handler_after_install (P : platform)
  (sys_sigaction : Z -> option saved_sigaction) (SA_SIGINFO : Z)
  (table : list saved_sigaction) (empty : saved_sigaction)
  (signo : Z) (old_sa : saved_sigaction) (w : world)
  (Hlen : length table = 32%nat)
  (Hsaved : forall s : Z,
      old_sigactions P s
      = saved_disposition SA_SIGINFO
          (fst (install_our_signal_handlers sys_sigaction SA_SIGINFO table)) empty s)
  (Hsigno : 1 <= signo < 32)
  (Hsys : sys_sigaction signo = Some old_sa) :
  chained (snd (signal_handler P signo w))
  = chained w ++ match saved_handler old_sa with
                 | SIG_FN =>
                     [(signo, negb (Z.land (saved_flags old_sa) SA_SIGINFO =? 0))]
                 | SIG_IGN | SIG_DFL => []
                 end.
Proof.
  destruct (install_loop_table sys_sigaction SA_SIGINFO 31 1 table [])
    as (_ & Hget); [lia|rewrite Hlen; cbn; lia|].
  assert (Hentry : fst (install_our_signal_handlers sys_sigaction SA_SIGINFO table)
                     !! Z.to_nat signo = Some old_sa).
  { unfold install_our_signal_handlers. rewrite Hget.
    replace (Z.to_nat 1 <=? Z.to_nat signo)%nat with true
      by (symmetry; apply Nat.leb_le; lia).
    replace (Z.to_nat signo <? Z.to_nat 1 + 31)%nat with true
      by (symmetry; apply Nat.ltb_lt; lia).
    cbn [andb]. by rewrite Z2Nat.id, Hsys by lia. }
  rewrite signal_handler_run. cbn [snd]. rewrite Hsaved.
  unfold saved_disposition. rewrite Hentry. cbn [sa_handler sa_siginfo].
  destruct ((signo =? SIGHUP P) || (signo =? SIGTERM P) || (signo =? SIGABRT P)
            || (signo =? SIGSEGV P));
    destruct (saved_handler old_sa); cbn; by rewrite ?app_nil_r.
Qed.

Lemma signal_handler_after_install_witness :
  chained (snd (signal_handler installed_tty 2 initial_world))
  = chained initial_world
    ++ match saved_handler {| saved_handler := SIG_FN; saved_flags := 4 |} with
       | SIG_FN => [(2, negb (Z.land (saved_flags {| saved_handler := SIG_FN;
                                                     saved_flags := 4 |}) 4 =? 0))]
       | SIG_IGN | SIG_DFL => []
       end.
Proof.
  apply (signal_handler_after_install installed_tty sample_sigaction 4
           (replicate 32 zero_sigaction) zero_sigaction 2
           {| saved_handler := SIG_FN; saved_flags := 4 |} initial_world);
    [reflexivity|intros s; reflexivity|lia|reflexivity].
Defined.

(** ** The line about one character *)



